(** * Mammography preprocessing (preprocess.py): model and properties

    The development embeds the transform library of [MammoPreprocessorBase],
    the CBIS-DDSM mask compositor and pipeline, and the RSNA photometric
    and windowing steps.

    Conventions of the embedding.
    - A NumPy array of unsigned integers is an [ndarray]: its dtype, its shape
      and its rows.  Wrap-around of fixed-width arithmetic is written out.
    - Python exceptions are values of [exn]; a call that may raise has type
      [result A].
    - Float arithmetic whose rounding is observable is IEEE binary64 and
      is modelled with the Standard Library's [SpecFloat]: the aspect-ratio
      computation of [_resize_to_height], truncated by [int], and the
      LINEAR window, whose values are stored into the integer array.
      NumPy computes on an integer array and a Python float in float64.
      [np.mean] and the SIGMOID expression of the window are parameters.
    - Element-wise float arithmetic is written with exact rationals ([Q])
      in the scaling to 8 bits and of the masks, in the binarisation
      threshold and in the normalised contour mask, on pixels of at most 16
      bits.  Conversions from float to an integer dtype truncate toward
      zero.
    - OpenCV and the DICOM decoder are outside of the repository: they are
      interfaces ([OpenCV], [Files]) of which only the documented contract
      is used. *)

From Stdlib Require Import String.
From Stdlib Require Import ZArith QArith List Bool Lia.
From Stdlib Require Import Floats.SpecFloat.
Import ListNotations.
Local Open Scope Z_scope.

(* ------------------------------------------------------------------ *)
(** ** Python exceptions and the error monad *)

Module Py.

Inductive exn : Type :=
| ValueError
| TypeError
| ZeroDivisionError
| OverflowError
| IndexError
| AttributeError
| cv2_error
| IOError.

Inductive result (A : Type) : Type :=
| Ok (a : A)
| Raise (e : exn).
Arguments Ok {A} a.
Arguments Raise {A} e.

Definition bind {A B} (c : result A) (k : A -> result B) : result B :=
  match c with
  | Ok a => k a
  | Raise e => Raise e
  end.

End Py.
Import Py.

Declare Scope py_scope.
Delimit Scope py_scope with py.
Notation "x <- c ;; k" := (Py.bind c (fun x => k))
  (at level 61, c at next level, right associativity) : py_scope.
Notation "' p <- c ;; k" := (Py.bind c (fun x => let 'p := x in k))
  (at level 61, p pattern, c at next level, right associativity) : py_scope.
Local Open Scope py_scope.

(* ------------------------------------------------------------------ *)
(** ** Python scalar floats: IEEE binary64 *)

Module F64.

Definition prec : Z := 53.
Definition emax : Z := 1024.
Definition float : Type := spec_float.

(** [float(z)] for a Python int (exact when [|z| < 2^53]). *)
Definition of_Z (z : Z) : float := binary_normalize prec emax z 0 false.
Definition div (a b : float) : float := SFdiv prec emax a b.
Definition add (a b : float) : float := SFadd prec emax a b.
Definition sub (a b : float) : float := SFsub prec emax a b.
Definition mul (a b : float) : float := SFmul prec emax a b.
(** [a <= b], [a < b] and [a == b]; each is false when one side is nan. *)
Definition leb (a b : float) : bool := SFleb a b.
Definition ltb (a b : float) : bool := SFltb a b.
Definition eqb (a b : float) : bool := SFeqb a b.
(** The float nearest to [n / d] (operands below [2^53]), as a decimal
    literal such as [1.1 = 11 / 10] denotes it. *)
Definition of_ratio (n d : Z) : float := div (of_Z n) (of_Z d).
(** The literal [0.5]. *)
Definition half : float := of_ratio 1 2.
Definition is_zero (a : float) : bool :=
  match a with S754_zero _ => true | _ => false end.

(** [h / w] on Python ints: true division, [ZeroDivisionError] on [w = 0].
    CPython rounds the exact quotient once; for operands below [2^53] (any
    array dimension) that is the binary64 quotient of the converted
    operands. *)
Definition truediv_int (a b : Z) : result float :=
  if b =? 0 then Raise ZeroDivisionError else Ok (div (of_Z a) (of_Z b)).

(** [n / r] with [n] an int and [r] a float. *)
Definition truediv_int_float (a : Z) (r : float) : result float :=
  if is_zero r then Raise ZeroDivisionError else Ok (div (of_Z a) r).

(** [int(x)]: truncation toward zero. *)
Definition to_int (x : float) : result Z :=
  match x with
  | S754_zero _ => Ok 0
  | S754_finite s m e => Ok (cond_Zopp s (Z.shiftl (Z.pos m) e))
  | S754_infinity _ => Raise OverflowError
  | S754_nan => Raise ValueError
  end.

(** Python's built-in [round(x)]: to the nearest integer, ties to even. *)
Definition round (x : float) : result Z :=
  match x with
  | S754_zero _ => Ok 0
  | S754_finite s m e =>
      if 0 <=? e then Ok (cond_Zopp s (Z.shiftl (Z.pos m) e))
      else
        let d := 2 ^ (- e) in
        let q := Z.pos m / d in
        let r := Z.pos m mod d in
        Ok (cond_Zopp s
              match 2 * r ?= d with
              | Lt => q
              | Gt => q + 1
              | Eq => if Z.even q then q else q + 1
              end)
  | S754_infinity _ => Raise OverflowError
  | S754_nan => Raise ValueError
  end.

End F64.

(* ------------------------------------------------------------------ *)
(** ** NumPy arrays *)

Inductive dtype : Type := uint8 | uint16.

Definition bits (d : dtype) : Z :=
  match d with uint8 => 8 | uint16 => 16 end.

(** Wrap-around of the unsigned dtype [d]. *)
Definition wrap (d : dtype) (z : Z) : Z := z mod 2 ^ bits d.

(** [np.sum] of unsigned integers accumulates in [uint64]. *)
Definition wrap64 (z : Z) : Z := z mod 2 ^ 64.

(** Float-to-integer cast ([astype], or a store into an integer array):
    truncation toward zero, then the wrap-around of the C conversion. *)
Definition Qtrunc (q : Q) : Z := Z.quot (Qnum q) (Z.pos (Qden q)).
Definition cast (d : dtype) (q : Q) : Z := wrap d (Qtrunc q).

Record ndarray : Type := mk_ndarray {
  dtype_of : dtype;
  nrows : nat;
  ncols : nat;
  data : list (list Z)
}.

(** A float64 array whose values are written as rationals: the product of
    an integer image with a mask of zeros and ones, where it is used, is
    exact. *)
Record farray : Type := mk_farray {
  fnrows : nat;
  fncols : nat;
  fdata : list (list Q)
}.

Definition shape (a : ndarray) : nat * nat := (nrows a, ncols a).

Definition wf (a : ndarray) : Prop :=
  length (data a) = nrows a /\
  Forall (fun r => length r = ncols a) (data a).

Definition in_range (a : ndarray) : Prop :=
  Forall (Forall (fun p => 0 <= p < 2 ^ bits (dtype_of a))) (data a).

(** [a[y, x]] (0 outside of the array, where Python would raise). *)
Definition px (a : ndarray) (y x : nat) : Z := nth x (nth y (data a) []) 0.

Definition tabulate {A} (n : nat) (f : nat -> A) : list A := map f (seq 0 n).

Definition zsum (l : list Z) : Z := fold_right Z.add 0 l.

Definition is_empty (a : ndarray) : bool :=
  (Nat.eqb (nrows a) 0 || Nat.eqb (ncols a) 0)%bool.

(** [a.max()]: raises on a zero-size array. *)
Definition list_max (l : list Z) : option Z :=
  match l with
  | [] => None
  | x :: t => Some (fold_left Z.max t x)
  end.

Definition np_max (a : ndarray) : result Z :=
  match list_max (concat (data a)) with
  | Some m => Ok m
  | None => Raise ValueError
  end.

(** [np.sum(a, axis=0)]: one [uint64] per column. *)
Definition np_sum_axis0 (a : ndarray) : list Z :=
  tabulate (ncols a) (fun j => wrap64 (zsum (map (fun r => nth j r 0) (data a)))).

(** [np.sum(v)] of a [uint64] vector. *)
Definition np_sum (v : list Z) : Z := wrap64 (zsum v).

(** [np.array_split(v, 2)]: the first part takes the extra element. *)
Definition np_array_split2 {A} (v : list A) : list A * list A :=
  let n := length v in
  let k := (n / 2 + n mod 2)%nat in
  (firstn k v, skipn k v).

(** [np.fliplr(a)]. *)
Definition np_fliplr (a : ndarray) : ndarray :=
  mk_ndarray (dtype_of a) (nrows a) (ncols a) (map (@rev Z) (data a)).

(** Bounds of the Python slice [start:stop] on an axis of length [len]. *)
Definition slice_bound (i : Z) (len : nat) : nat :=
  if i <? 0 then Z.to_nat (Z.max (i + Z.of_nat len) 0)
  else Nat.min (Z.to_nat i) len.

Definition py_slice {A} (start stop : Z) (l : list A) : list A :=
  let a := slice_bound start (length l) in
  let b := slice_bound stop (length l) in
  firstn (b - a) (skipn a l).

Definition slice_len (start stop : Z) (len : nat) : nat :=
  (slice_bound stop len - slice_bound start len)%nat.

(** [a[y1:y2, x1:x2]]. *)
Definition np_slice2 (a : ndarray) (y1 y2 x1 x2 : Z) : ndarray :=
  mk_ndarray (dtype_of a)
    (slice_len y1 y2 (nrows a))
    (slice_len x1 x2 (ncols a))
    (map (fun r => firstn (slice_len x1 x2 (ncols a))
                     (skipn (slice_bound x1 (ncols a)) r))
         (py_slice y1 y2 (data a))).

(** A mask argument: the label array, or the Python int that
    [_combine_masks] returns when it adds nothing. *)
Inductive labels : Type :=
| LInt (z : Z)
| LArr (a : ndarray).

(* ------------------------------------------------------------------ *)
(** ** OpenCV *)

Inductive interpolation : Type := INTER_NEAREST | INTER_LINEAR.

(** A contour: its points [(x, y)], as [cv2.findContours] returns them. *)
Definition contour : Type := list (Z * Z).

Class OpenCV : Type := {
  (** value of the pixel [(y, x)] of [cv2.resize(src, (w, h), interpolation)] *)
  resize_kernel : interpolation -> ndarray -> nat -> nat -> nat -> nat -> Z;
  (** the contours that
      [cv2.findContours(bin, RETR_EXTERNAL, CHAIN_APPROX_NONE)] finds in an
      8-bit image *)
  findContours : ndarray -> list contour;
  (** [cv2.contourArea] *)
  contourArea : contour -> Q;
  (** the pixels [(y, x)] that [cv2.drawContours(.., FILLED)] paints *)
  filled : contour -> nat -> nat -> bool;
  (** [cv2.equalizeHist] *)
  equalizeHist : ndarray -> ndarray
}.

Section Cv2.
Context {cv : OpenCV}.

(** [cv2.resize(src, (w, h), interpolation=interp)]: the result has the
    requested size; an empty source or an empty size is an error. *)
Definition cv2_resize (src : ndarray) (dsize : Z * Z) (interp : interpolation)
  : result ndarray :=
  let '(w, h) := dsize in
  if is_empty src || (w <=? 0) || (h <=? 0) then Raise cv2_error
  else
    let w' := Z.to_nat w in
    let h' := Z.to_nat h in
    Ok (mk_ndarray (dtype_of src) h' w'
          (tabulate h' (fun y => tabulate w' (fun x =>
             resize_kernel interp src w' h' y x)))).

(** [cv2.copyMakeBorder(src, 0, 0, 0, right, cv2.BORDER_CONSTANT, value=0)]. *)
Definition cv2_copyMakeBorder_right (src : ndarray) (right : Z) : result ndarray :=
  if right <? 0 then Raise cv2_error
  else
    let k := Z.to_nat right in
    Ok (mk_ndarray (dtype_of src) (nrows src) (ncols src + k)
          (map (fun r => r ++ repeat 0 k) (data src))).

(** [cv2.findContours(src, cv2.RETR_EXTERNAL, cv2.CHAIN_APPROX_NONE)[0]]:
    OpenCV accepts an 8-bit single-channel image only and rejects every
    other array with [cv2.error]. *)
Definition cv2_findContours (src : ndarray) : result (list contour) :=
  match dtype_of src with
  | uint8 => Ok (findContours src)
  | uint16 => Raise cv2_error
  end.

(** [cv2.drawContours(np.zeros(shape, np.uint8), [c], -1, 255, cv2.FILLED)]. *)
Definition cv2_drawContours_filled (h w : nat) (c : contour) : ndarray :=
  mk_ndarray uint8 h w
    (tabulate h (fun y => tabulate w (fun x => if filled c y x then 255 else 0))).

End Cv2.

(* ------------------------------------------------------------------ *)
(** ** MammoPreprocessorBase *)

Definition map2 {A B C} (f : A -> B -> C) (l1 : list A) (l2 : list B) : list C :=
  map (fun ab => f (fst ab) (snd ab)) (combine l1 l2).

(** [a * b] on arrays of one shape; the result has the dtype of [a]
    (NumPy promotes [uintN * uint8] to [uintN]) and wraps around. *)
Definition np_mul (a b : ndarray) : ndarray :=
  mk_ndarray (dtype_of a) (nrows a) (ncols a)
    (map2 (map2 (fun p m => wrap (dtype_of a) (p * m))) (data a) (data b)).

Definition Qgtb (a b : Q) : bool := negb (Qle_bool a b).

(** Python's [max(seq, key=key)]: the first maximal element, [ValueError] on
    an empty sequence. *)
Definition py_max_key {A} (key : A -> Q) (l : list A) : result A :=
  match l with
  | [] => Raise ValueError
  | x :: t =>
      Ok (fold_left (fun best c => if Qgtb (key c) (key best) then c else best) t x)
  end.

(** [np.min(v)] and [np.max(v)] of a coordinate vector. *)
Definition np_min_list (l : list Z) : result Z :=
  match l with
  | [] => Raise ValueError
  | x :: t => Ok (fold_left Z.min t x)
  end.

Definition np_max_list (l : list Z) : result Z :=
  match l with
  | [] => Raise ValueError
  | x :: t => Ok (fold_left Z.max t x)
  end.

(** The operations of the transforms on a mask argument.  The Python int is
    not an array: [np.fliplr] rejects it, subscripting it is a [TypeError]. *)
Definition fliplr_labels (m : labels) : result labels :=
  match m with
  | LInt _ => Raise ValueError
  | LArr a => Ok (LArr (np_fliplr a))
  end.

Definition slice2_labels (m : labels) (y1 y2 x1 x2 : Z) : result labels :=
  match m with
  | LInt _ => Raise TypeError
  | LArr a => Ok (LArr (np_slice2 a y1 y2 x1 x2))
  end.

Section Base.
Context {cv : OpenCV}.

Definition resize_labels (m : labels) (dsize : Z * Z) (interp : interpolation)
  : result labels :=
  match m with
  | LInt _ => Raise cv2_error
  | LArr a => a' <- cv2_resize a dsize interp ;; Ok (LArr a')
  end.

Definition copyMakeBorder_right_labels (m : labels) (right : Z) : result labels :=
  match m with
  | LInt _ => Raise cv2_error
  | LArr a => a' <- cv2_copyMakeBorder_right a right ;; Ok (LArr a')
  end.

(** [(img / img.max() * 255).astype(np.uint8)].  A zero maximum makes the
    quotient nan, whose cast is unspecified: the model yields 0 there. *)
Definition _convert_to_8bit (img : ndarray) : result ndarray :=
  m <- np_max img ;;
  Ok (mk_ndarray uint8 (nrows img) (ncols img)
        (map (map (fun p => cast uint8 (inject_Z p / inject_Z m * 255)%Q))
             (data img))).

Definition _hist_eq (img : ndarray) : result ndarray :=
  img8 <- _convert_to_8bit img ;;
  Ok (equalizeHist img8).

Definition _padresize_to_width (img : ndarray) (size : Z * Z) (mask : option labels)
  : result (ndarray * option labels) :=
  let w := Z.of_nat (ncols img) in
  (* if w < size[1]: pad on the right *)
  '(img1, mask1) <-
     (if w <? snd size then
        img' <- cv2_copyMakeBorder_right img (snd size - w) ;;
        match mask with
        | None => Ok (img', None)
        | Some m =>
            m' <- copyMakeBorder_right_labels m (snd size - w) ;;
            Ok (img', Some m')
        end
      else Ok (img, mask)) ;;
  (* if w > size[1]: resize, the mask with INTER_NEAREST *)
  if w >? snd size then
    img' <- cv2_resize img1 (snd size, fst size) INTER_LINEAR ;;
    match mask1 with
    | None => Ok (img', None)
    | Some m =>
        m' <- resize_labels m (snd size, fst size) INTER_NEAREST ;;
        Ok (img', Some m')
    end
  else Ok (img1, mask1).

(** [new_size = (int(size[0] / (h / w)), size[0])]. *)
Definition new_size (h w : nat) (size : Z * Z) : result (Z * Z) :=
  r <- F64.truediv_int (Z.of_nat h) (Z.of_nat w) ;;
  q <- F64.truediv_int_float (fst size) r ;;
  nw <- F64.to_int q ;;
  Ok (nw, fst size).

Definition _resize_to_height (img : ndarray) (size : Z * Z) (mask : option labels)
  : result (ndarray * option labels) :=
  ns <- new_size (nrows img) (ncols img) size ;;
  img' <- cv2_resize img ns INTER_LINEAR ;;
  match mask with
  | None => Ok (img', None)
  | Some m =>
      m' <- resize_labels m ns INTER_NEAREST ;;
      Ok (img', Some m')
  end.

(** [(img > img.max() * 0.05).astype("uint8")]. *)
Definition _binarize (img : ndarray) : result ndarray :=
  m <- np_max img ;;
  Ok (mk_ndarray uint8 (nrows img) (ncols img)
        (map (map (fun p =>
                if Qgtb (inject_Z p) (inject_Z m * (5 # 100))%Q then 1 else 0))
             (data img))).

Definition _find_contours (bin_img : ndarray) : result contour :=
  contours <- cv2_findContours bin_img ;;
  py_max_key contourArea contours.

Definition _crop_roi (img : ndarray) (mask : option labels)
  : result (ndarray * option labels) :=
  bin_img <- _binarize img ;;
  c <- _find_contours bin_img ;;
  x1 <- np_min_list (map fst c) ;;
  x2 <- np_max_list (map fst c) ;;
  y1 <- np_min_list (map snd c) ;;
  y2 <- np_max_list (map snd c) ;;
  match mask with
  | None => Ok (np_slice2 img y1 y2 x1 x2, None)
  | Some m =>
      m' <- slice2_labels m y1 y2 x1 x2 ;;
      Ok (np_slice2 img y1 y2 x1 x2, Some m')
  end.

(** The result of [_remove_background]: [img * mask] keeps the integer dtype
    of [img]; with [remove_wlines] the mask has been divided and is float
    (a mask without any painted pixel divides by zero: nan in NumPy, 0 in
    the model). *)
Definition bg_array (remove_wlines : bool) : Type :=
  if remove_wlines then farray else ndarray.

Definition _remove_background (img : ndarray) (remove_wlines : bool)
  : result (bg_array remove_wlines) :=
  bin_img <- _binarize img ;;
  c <- _find_contours bin_img ;;
  let mask := cv2_drawContours_filled (nrows bin_img) (ncols bin_img) c in
  match remove_wlines as b return result (bg_array b) with
  | true =>
      (* white_lines_fix = (mask[:,-1] != 255); mask = mask * fix / mask.max() *)
      if Nat.eqb (ncols mask) 0 then Raise IndexError
      else
        mmax <- np_max mask ;;
        let fmask :=
          map (fun r =>
                 let wfix := if last r 0 =? 255 then 0 else 1 in
                 map (fun m => (inject_Z (wrap uint8 (m * wfix)) / inject_Z mmax)%Q) r)
              (data mask) in
        Ok (mk_farray (nrows img) (ncols img)
              (map2 (map2 (fun p m => (inject_Z p * m)%Q)) (data img) fmask))
  | false => Ok (np_mul img mask)
  end.

Definition _correct_side (img : ndarray) (mask : option labels)
  : result (ndarray * option labels) :=
  let col_sums_split := np_array_split2 (np_sum_axis0 img) in
  let left_col_sum := np_sum (fst col_sums_split) in
  let right_col_sum := np_sum (snd col_sums_split) in
  if left_col_sum >? right_col_sum then Ok (img, mask)
  else
    match mask with
    | None => Ok (np_fliplr img, None)
    | Some m =>
        m' <- fliplr_labels m ;;
        Ok (np_fliplr img, Some m')
    end.

End Base.

(* ------------------------------------------------------------------ *)
(** ** MammoPreprocessorCBISDDSM *)

(** The DICOM decoder and the persisting step ([_save_image]: the file name
    taken from the path, then [cv2.imwrite]). *)
Class Files : Type := {
  (** [dicom.open(path).pixelData()] *)
  pixelData : string -> result ndarray;
  save_image : ndarray -> string -> string -> option labels -> result unit
}.

(** A row of the merged table [self.df]; [pathology] is 1 (benign) or 2
    (malignant) after [_merge_dfs]. *)
Record row : Type := mk_row {
  full_img_fname : string;
  mask_fname : string;
  pathology : Z
}.

Record MammoPreprocessorCBISDDSM : Type := mk_cbis {
  image_size : Z * Z;
  df : list row
}.

(** [(m / 255).astype(np.uint8)]. *)
Definition mask_px (m : ndarray) : ndarray :=
  mk_ndarray uint8 (nrows m) (ncols m)
    (map (map (fun p => cast uint8 (inject_Z p / 255)%Q)) (data m)).

(** [a * k] with [k] a small Python int: the dtype of [a] is kept. *)
Definition np_mul_scalar (a : ndarray) (k : Z) : ndarray :=
  mk_ndarray (dtype_of a) (nrows a) (ncols a)
    (map (map (fun p => wrap (dtype_of a) (p * k))) (data a)).

(** NumPy broadcasting of [b] to the shape [shp]. *)
Definition np_broadcast_to (b : ndarray) (shp : nat * nat) : result ndarray :=
  let '(h, w) := shp in
  if (Nat.eqb (nrows b) h || Nat.eqb (nrows b) 1) &&
     (Nat.eqb (ncols b) w || Nat.eqb (ncols b) 1)
  then Ok (mk_ndarray (dtype_of b) h w
             (tabulate h (fun y => tabulate w (fun x =>
                px b (if Nat.eqb (nrows b) h then y else 0%nat)
                     (if Nat.eqb (ncols b) w then x else 0%nat)))))
  else Raise ValueError.

(** [labels += x]: [0 + x] is a new array; an array is updated in place. *)
Definition iadd_labels (l : labels) (x : ndarray) : result labels :=
  match l with
  | LInt z =>
      Ok (LArr (mk_ndarray (dtype_of x) (nrows x) (ncols x)
                  (map (map (fun p => wrap (dtype_of x) (z + p))) (data x))))
  | LArr a =>
      b <- np_broadcast_to x (shape a) ;;
      Ok (LArr (mk_ndarray (dtype_of a) (nrows a) (ncols a)
                  (map2 (map2 (fun p q => wrap (dtype_of a) (p + q)))
                        (data a) (data b))))
  end.

Section CBISDDSM.
Context {cv : OpenCV} {fs : Files}.

(** The loop of [_combine_masks] over the rows of [image_info]. *)
Fixpoint combine_loop (image_info : list row) (l : labels) : result labels :=
  match image_info with
  | [] => Ok l
  | mask :: rest =>
      m <- pixelData (mask_fname mask) ;;
      l' <- iadd_labels l (np_mul_scalar (mask_px m) (pathology mask)) ;;
      combine_loop rest l'
  end.

Definition _combine_masks (self : MammoPreprocessorCBISDDSM) (path : string)
  : result labels :=
  let image_info :=
    filter (fun r => String.eqb (full_img_fname r) path) (df self) in
  combine_loop image_info (LInt 0).

(** [preprocess_image]: [None] when the result was saved. *)
Definition preprocess_image (self : MammoPreprocessorCBISDDSM) (path fformat : string)
    (hist_eq save : bool) : result (option ndarray) :=
  img <- pixelData path ;;
  l <- _combine_masks self path ;;
  '(img, l) <- _correct_side img (Some l) ;;
  img <- _remove_background img false ;;
  '(img, l) <- _crop_roi img l ;;
  '(img, l) <- _resize_to_height img (image_size self) l ;;
  '(img, l) <- _padresize_to_width img (image_size self) l ;;
  img <- (if hist_eq then _hist_eq img else _convert_to_8bit img) ;;
  if save then
    _ <- save_image img path fformat l ;;
    Ok None
  else Ok (Some img).

End CBISDDSM.

(* ------------------------------------------------------------------ *)
(** ** MammoPreprocessorRSNA: windowing *)

(** A DICOM decimal-string attribute as the decoder hands it over: one
    Python float, or a list of them. *)
Inductive ds : Type :=
| DSval (x : F64.float)
| DSlist (l : list F64.float).

Record scan : Type := mk_scan {
  VOILUTFunction : string;
  WindowCenter : ds;
  WindowWidth : ds;
  BitsStored : N
}.

(** A float64 array of binary64 values. *)
Record f64array : Type := mk_f64array {
  f64nrows : nat;
  f64ncols : nat;
  f64data : list (list F64.float)
}.

(** What [_windowing] returns for the integer array of the decoder: the
    array itself, updated in place (LINEAR), or a new float64 array
    (SIGMOID). *)
Inductive pixels : Type :=
| IntPx (a : ndarray)
| FloatPx (a : f64array).

(** The value of [center] after the selection at the head of [_windowing]:
    the Python int of [int(np.mean(..))], or the attribute itself. *)
Inductive center_value : Type :=
| CInt (z : Z)
| CFloat (x : F64.float)
| CList (l : list F64.float).

Definition y_range_of (s : scan) : Z := 2 ^ Z.of_N (BitsStored s) - 1.

(** The operand of [center -= 0.5]: a list has no subtraction. *)
Definition float_of_center (c : center_value) : result F64.float :=
  match c with
  | CInt z => Ok (F64.of_Z z)
  | CFloat x => Ok x
  | CList _ => Raise TypeError
  end.

(** A store of a float64 value into an array of dtype [d]: truncation
    toward zero, then the wrap-around of the C conversion.  The conversion
    of nan and of an infinity is unspecified: the model yields 0 there. *)
Definition cast64 (d : dtype) (x : F64.float) : Z :=
  match F64.to_int x with
  | Ok z => wrap d z
  | Raise _ => 0
  end.

(** [center - width / 2] and [center + width / 2], Python floats. *)
Definition low_cut (center width : F64.float) : F64.float :=
  F64.sub center (F64.div width (F64.of_Z 2)).

Definition high_cut (center width : F64.float) : F64.float :=
  F64.add center (F64.div width (F64.of_Z 2)).

(** [((p - center) / width + 0.5) * y_range] for a pixel [p] of an integer
    array: NumPy converts the pixel to float64 and computes in binary64. *)
Definition linear_interp (center width : F64.float) (y_range : Z) (p : Z)
  : F64.float :=
  F64.mul
    (F64.add (F64.div (F64.sub (F64.of_Z p) center) width) F64.half)
    (F64.of_Z y_range).

(** One pixel of the LINEAR branch on an integer array of dtype [d];
    [center] and [width] are the decremented values.  The three masks are
    taken on the input; the three stores follow in order, each converting
    to [d]. *)
Definition linear_px_int (d : dtype) (center width : F64.float) (y_range : Z)
    (p : Z) : Z :=
  let below := F64.leb (F64.of_Z p) (low_cut center width) in
  let above := F64.ltb (high_cut center width) (F64.of_Z p) in
  let between := negb below && negb above in
  let p1 := if below then 0 else p in
  let p2 := if above then wrap d y_range else p1 in
  if between then cast64 d (linear_interp center width y_range p2) else p2.

Section RSNA.
(** [np.mean] of a list of floats. *)
Variable np_mean : list F64.float -> F64.float.
(** [y_range / (1 + np.exp(-4 * (img - center) / width))] on the whole
    array: the SIGMOID branch is a single NumPy expression, whose dtype
    promotion and exponential are NumPy's. *)
Variable np_sigmoid : center_value -> F64.float -> Z -> ndarray -> result f64array.

(** [int(np.mean(v))]; [int] rejects nan and the infinities. *)
Definition int_mean (v : ds) : result Z :=
  match v with
  | DSval x => F64.to_int x
  | DSlist l => F64.to_int (np_mean l)
  end.

(** The [center] and [width] that [_windowing] selects: for a multi-valued
    width the truncated mean of the centers and the first width, and the
    attributes themselves otherwise. *)
Definition window_of (s : scan) : result (center_value * F64.float) :=
  match WindowWidth s with
  | DSlist ws =>
      c <- int_mean (WindowCenter s) ;;
      match ws with
      | [] => Raise IndexError
      | w :: _ => Ok (CInt c, w)
      end
  | DSval w =>
      Ok (match WindowCenter s with
          | DSval c => CFloat c
          | DSlist l => CList l
          end, w)
  end.

Definition _windowing (s : scan) (img : ndarray) : result pixels :=
  let function := VOILUTFunction s in
  '(center, width) <- window_of s ;;
  let y_range := y_range_of s in
  if String.eqb function "SIGMOID" then
    r <- np_sigmoid center width y_range img ;;
    Ok (FloatPx r)
  else
    (* center -= 0.5; width -= 1 *)
    center <- float_of_center center ;;
    let center := F64.sub center F64.half in
    let width := F64.sub width (F64.of_Z 1) in
    Ok (IntPx (mk_ndarray (dtype_of img) (nrows img) (ncols img)
          (map (map (linear_px_int (dtype_of img) center width y_range))
               (data img)))).

End RSNA.

(** [_fix_photometric_inter]: a MONOCHROME1 image is inverted about its
    maximum, [img.max() - img], in the dtype of the array.  The attribute
    [scan.PhotometricInterpretation] is the only part of the scan that is
    read, and is passed by itself. *)
Definition _fix_photometric_inter (PhotometricInterpretation : string)
    (img : ndarray) : result ndarray :=
  if String.eqb PhotometricInterpretation "MONOCHROME1" then
    m <- np_max img ;;
    Ok (mk_ndarray (dtype_of img) (nrows img) (ncols img)
          (map (map (fun p => wrap (dtype_of img) (m - p))) (data img)))
  else Ok img.

(* ------------------------------------------------------------------ *)
(** ** A reference instance of the external interfaces

    Used to run the model on concrete images.  There is one contour for
    each 8-connected region of non-zero pixels, regions in raster order of
    their first pixel; a contour holds the pixels of its region in raster
    order, its area is their number, and it fills exactly these pixels.
    (OpenCV itself traces the border of a region and measures the polygon
    it encloses.)  Resizing samples the nearest source pixel. *)

Definition indexed {A} (l : list A) : list (nat * A) := combine (seq 0 (length l)) l.

Definition fg_points (b : ndarray) : contour :=
  concat (map (fun yr =>
            concat (map (fun xp =>
                      if snd xp =? 0 then []
                      else [(Z.of_nat (fst xp), Z.of_nat (fst yr))])
                    (indexed (snd yr))))
          (indexed (data b))).

(** Two pixels that touch, also diagonally. *)
Definition adjacent (p q : Z * Z) : bool :=
  (Z.abs (fst p - fst q) <=? 1) && (Z.abs (snd p - snd q) <=? 1).

Definition same_point (p q : Z * Z) : bool :=
  (fst p =? fst q) && (snd p =? snd q).

(** The region of [region] within [region ++ rest]: the points of [rest]
    that touch the region join it, until none does. *)
Fixpoint grow (fuel : nat) (region rest : list (Z * Z))
  : list (Z * Z) * list (Z * Z) :=
  match fuel with
  | O => (region, rest)
  | S n =>
      match partition (fun q => existsb (adjacent q) region) rest with
      | ([], _) => (region, rest)
      | (near, far) => grow n (region ++ near) far
      end
  end.

(** The 8-connected regions of the point set [pts]; the points of each
    region in the order they have in [all]. *)
Fixpoint regions (fuel : nat) (all pts : list (Z * Z)) : list contour :=
  match fuel, pts with
  | S n, p :: rest =>
      let '(region, rest') := grow (length rest) [p] rest in
      filter (fun q => existsb (same_point q) region) all :: regions n all rest'
  | _, _ => []
  end.

Definition ref_findContours (b : ndarray) : list contour :=
  let pts := fg_points b in
  regions (length pts) pts pts.

Definition ref_filled (c : contour) (y x : nat) : bool :=
  existsb (fun q => (fst q =? Z.of_nat x) && (snd q =? Z.of_nat y)) c.

Definition ref_kernel (_ : interpolation) (src : ndarray) (w h y x : nat) : Z :=
  px src (y * nrows src / h) (x * ncols src / w).

Definition ref_cv : OpenCV := {|
  resize_kernel := ref_kernel;
  findContours := ref_findContours;
  contourArea := fun c => inject_Z (Z.of_nat (length c));
  filled := ref_filled;
  equalizeHist := fun a => a
|}.

(** A decoder over an association list of files. *)
Definition files_of (tbl : list (string * ndarray)) : Files := {|
  pixelData := fun path =>
    match find (fun e => String.eqb (fst e) path) tbl with
    | Some e => Ok (snd e)
    | None => Raise IOError
    end;
  save_image := fun _ _ _ _ => Ok tt
|}.

(** The two sums that [_correct_side] compares. *)
Definition left_col_sum (img : ndarray) : Z :=
  np_sum (fst (np_array_split2 (np_sum_axis0 img))).

Definition right_col_sum (img : ndarray) : Z :=
  np_sum (snd (np_array_split2 (np_sum_axis0 img))).

(** The intensities of the two halves of an image: the columns left of the
    split and the others; the left half takes the middle column of an odd
    width. *)
Definition half_split (img : ndarray) : nat :=
  (ncols img / 2 + ncols img mod 2)%nat.

Definition left_half_sum (img : ndarray) : Z :=
  zsum (map (fun r => zsum (firstn (half_split img) r)) (data img)).

Definition right_half_sum (img : ndarray) : Z :=
  zsum (map (fun r => zsum (skipn (half_split img) r)) (data img)).

(** The width that the aspect ratio would give if the quotient were rounded
    to the nearest integer instead of truncated. *)
Definition rounded_width (h w : nat) (size : Z * Z) : result Z :=
  r <- F64.truediv_int (Z.of_nat h) (Z.of_nat w) ;;
  q <- F64.truediv_int_float (fst size) r ;;
  F64.round q.

(** The value of the DICOM C.11.2 interpolation formula at the pixel [p]. *)
Definition linear_formula (center width : Q) (y_range : Z) (p : Q) : Q :=
  (((p - center) / width + (1 # 2)) * inject_Z y_range)%Q.

(** A mask argument that is absent, or an array of the shape [shp]. *)
Definition labels_shape (l : option labels) (shp : nat * nat) : Prop :=
  match l with
  | None => True
  | Some (LArr a) => shape a = shp
  | Some (LInt _) => False
  end.

(** An image without any non-zero pixel. *)
Definition all_zero (a : ndarray) : Prop :=
  Forall (Forall (fun p => p = 0)) (data a).

(** The contribution of one abnormality mask to the label of the pixel
    [(y, x)], and the sum over the masks of an image. *)
Definition mask_term (r : row) (m : ndarray) (y x : nat) : Z :=
  Z.quot (px m y x) 255 * pathology r.

Definition label_sum (rows : list row) (ms : list ndarray) (y x : nat) : Z :=
  zsum (map2 (fun r m => mask_term r m y x) rows ms).

(** [SFcompare] orders the floats that are not nan like triples of
    integers: the class (infinite, finite or zero, with its sign), then the
    exponent, then the mantissa. *)
Definition rank (x : F64.float) : option (Z * Z * Z) :=
  match x with
  | S754_nan => None
  | S754_infinity s => Some (if s then -2 else 2, 0, 0)
  | S754_zero _ => Some (0, 0, 0)
  | S754_finite s m e =>
      Some (if s then (-1, - e, Z.neg m) else (1, e, Z.pos m))
  end.

Definition lex_compare (a b : Z * Z * Z) : comparison :=
  let '(a1, a2, a3) := a in
  let '(b1, b2, b3) := b in
  match a1 ?= b1 with
  | Eq => match a2 ?= b2 with Eq => a3 ?= b3 | c => c end
  | c => c
  end.

(** [a[y, x]] of a float array (0 outside of the array). *)
Definition fpx (a : farray) (y x : nat) : Q := nth x (nth y (fdata a) []) 0%Q.

(* ================================================================== *)
(** * Properties *)

(** ** Side correction *)

(** C3 as stated fails on a tie: the halves of [[1 2 3 0]] both sum to 3, the
    right half does not exceed the left one, and the image is mirrored
    nevertheless. *)
Lemma correct_side_mirrors_on_tie :
  let img := mk_ndarray uint16 1 4 [[1; 2; 3; 0]] in
  left_col_sum img = 3 /\ right_col_sum img = 3 /\
  _correct_side img None = Ok (mk_ndarray uint16 1 4 [[0; 3; 2; 1]], None) /\
  mk_ndarray uint16 1 4 [[0; 3; 2; 1]] <> img.
Proof.
  cbv zeta. repeat split; try reflexivity.
  discriminate.
Qed.

(** Sums of rows and columns. *)
Lemma zsum_cons (x : Z) (l : list Z) : zsum (x :: l) = x + zsum l.
Proof. reflexivity. Qed.

Lemma zsum_map_add {A} (f g : A -> Z) (l : list A) :
  zsum (map (fun x => f x + g x) l) = zsum (map f l) + zsum (map g l).
Proof. induction l as [|x l IH]; simpl; lia. Qed.

Lemma zsum_swap {A B} (f : A -> B -> Z) (rows : list A) (js : list B) :
  zsum (map (fun j => zsum (map (fun r => f r j) rows)) js) =
  zsum (map (fun r => zsum (map (fun j => f r j) js)) rows).
Proof.
  induction rows as [|r rows IH]; simpl.
  - induction js as [|j js IHj]; simpl; lia.
  - rewrite zsum_map_add, IH. reflexivity.
Qed.

Lemma zsum_wrap64 {A} (g : A -> Z) (l : list A) :
  wrap64 (zsum (map (fun j => wrap64 (g j)) l)) = wrap64 (zsum (map g l)).
Proof.
  unfold wrap64. assert (Hn : 2 ^ 64 <> 0) by lia.
  revert Hn. generalize (2 ^ 64). intros n Hn.
  induction l as [|x l IH]; cbn [map]; [reflexivity|].
  rewrite !zsum_cons.
  rewrite Z.add_mod, IH, Z.mod_mod, <- Z.add_mod by exact Hn. reflexivity.
Qed.

Lemma zsum_seq_nth (r : list Z) (a n : nat) :
  (a + n <= length r)%nat ->
  zsum (map (fun j => nth j r 0) (seq a n)) = zsum (firstn n (skipn a r)).
Proof.
  revert a r. induction n as [|n IH]; intros a r Hle; simpl; [reflexivity|].
  destruct (skipn a r) as [|x t] eqn:E.
  - assert (length (skipn a r) = 0%nat) by (rewrite E; reflexivity).
    rewrite length_skipn in H. lia.
  - simpl. rewrite IH by lia.
    assert (Hn : nth a r 0 = x).
    { rewrite <- (firstn_skipn a r) at 1. rewrite app_nth2; rewrite length_firstn;
        [|lia]. replace (a - Nat.min a (length r))%nat with 0%nat by lia.
      rewrite E. reflexivity. }
    assert (Ht : skipn (S a) r = t).
    { replace (S a) with (1 + a)%nat by lia. rewrite <- skipn_skipn, E. reflexivity. }
    rewrite Hn, Ht. reflexivity.
Qed.

Lemma firstn_seq (n a len : nat) : firstn n (seq a len) = seq a (Nat.min n len).
Proof.
  revert a len. induction n as [|n IH]; intros a [|len]; simpl; try reflexivity.
  rewrite IH. reflexivity.
Qed.

Lemma half_split_le (img : ndarray) : (half_split img <= ncols img)%nat.
Proof.
  unfold half_split.
  pose proof (Nat.div_mod_eq (ncols img) 2). lia.
Qed.

Lemma split_sums_spec (img : ndarray) :
  wf img ->
  left_col_sum img = wrap64 (left_half_sum img) /\
  right_col_sum img = wrap64 (right_half_sum img).
Proof.
  intros [Hlen Hrows].
  pose proof (half_split_le img) as Hk.
  unfold left_col_sum, right_col_sum, np_array_split2, np_sum, np_sum_axis0, tabulate.
  rewrite length_map, length_seq. fold (half_split img). simpl fst; simpl snd.
  rewrite firstn_map, skipn_map, firstn_seq, skipn_seq.
  rewrite Nat.min_l by exact Hk.
  rewrite !zsum_wrap64.
  rewrite !(zsum_swap (fun r j => nth j r 0)).
  unfold left_half_sum, right_half_sum.
  split; f_equal; f_equal; apply map_ext_in; intros r Hin;
    rewrite Forall_forall in Hrows; specialize (Hrows r Hin).
  - rewrite zsum_seq_nth by (simpl; lia). reflexivity.
  - rewrite zsum_seq_nth by lia.
    rewrite firstn_all2; [f_equal; lia|]. rewrite length_skipn. lia.
Qed.

Lemma correct_side_cases (img : ndarray) (mask : option ndarray) :
  _correct_side img (option_map LArr mask) =
  if left_col_sum img >? right_col_sum img
  then Ok (img, option_map LArr mask)
  else Ok (np_fliplr img, option_map LArr (option_map np_fliplr mask)).
Proof.
  unfold _correct_side, left_col_sum, right_col_sum.
  destruct (_ >? _); [reflexivity|].
  destruct mask as [m|]; reflexivity.
Qed.

(** C3 (amended): [_correct_side] sums the pixel intensities of the left and
    of the right half of the image (in [uint64]); it returns the image and
    the mask unchanged when the left sum exceeds the right sum, and mirrors
    both otherwise, ties included. *)
Theorem correct_side_mirrors_unless_left_heavier :
  forall (img : ndarray) (mask : option ndarray),
    wf img ->
    _correct_side img (option_map LArr mask) =
    if wrap64 (left_half_sum img) >? wrap64 (right_half_sum img)
    then Ok (img, option_map LArr mask)
    else Ok (np_fliplr img, option_map LArr (option_map np_fliplr mask)).
Proof.
  intros img mask Hwf.
  destruct (split_sums_spec img Hwf) as [<- <-].
  apply correct_side_cases.
Qed.

(** A run on a 2x3 image whose right half is heavier. *)
Lemma correct_side_mirrors_unless_left_heavier_witness :
  let img := mk_ndarray uint16 2 3 [[1; 2; 9]; [0; 1; 7]] in
  let mask := mk_ndarray uint8 2 3 [[0; 0; 1]; [0; 2; 2]] in
  wf img /\
  _correct_side img (Some (LArr mask)) =
  Ok (mk_ndarray uint16 2 3 [[9; 2; 1]; [7; 1; 0]],
      Some (LArr (mk_ndarray uint8 2 3 [[1; 0; 0]; [2; 2; 0]]))).
Proof.
  cbv zeta.
  assert (Hwf : wf (mk_ndarray uint16 2 3 [[1; 2; 9]; [0; 1; 7]])).
  { split; [reflexivity|]. repeat constructor. }
  split; [exact Hwf|].
  exact (correct_side_mirrors_unless_left_heavier _
           (Some (mk_ndarray uint8 2 3 [[0; 0; 1]; [0; 2; 2]])) Hwf).
Defined.

(** ** Resizing *)

Section ResizeFacts.
Context {cv : OpenCV}.

Lemma cv2_resize_ok (src : ndarray) (w h : Z) (i : interpolation) :
  is_empty src = false -> 0 < w -> 0 < h ->
  cv2_resize src (w, h) i =
  Ok (mk_ndarray (dtype_of src) (Z.to_nat h) (Z.to_nat w)
        (tabulate (Z.to_nat h) (fun y => tabulate (Z.to_nat w) (fun x =>
           resize_kernel i src (Z.to_nat w) (Z.to_nat h) y x)))).
Proof.
  intros He Hw Hh. unfold cv2_resize. rewrite He.
  destruct (Z.leb_spec w 0); [lia|]. destruct (Z.leb_spec h 0); [lia|].
  reflexivity.
Qed.

Lemma cv2_resize_inv (src a : ndarray) (w h : Z) (i : interpolation) :
  cv2_resize src (w, h) i = Ok a ->
  is_empty src = false /\ 0 < w /\ 0 < h /\
  shape a = (Z.to_nat h, Z.to_nat w).
Proof.
  unfold cv2_resize.
  destruct (is_empty src); [discriminate|].
  destruct (Z.leb_spec w 0); [discriminate|].
  destruct (Z.leb_spec h 0); [discriminate|].
  cbn [orb]. intros [= <-]. repeat split; assumption.
Qed.

Lemma cv2_resize_raise (src : ndarray) (w h : Z) (i : interpolation) (e : exn) :
  cv2_resize src (w, h) i = Raise e ->
  e = cv2_error /\ (is_empty src = true \/ w <= 0 \/ h <= 0).
Proof.
  unfold cv2_resize.
  destruct (is_empty src) eqn:He; [intros [= <-]; auto|].
  destruct (Z.leb_spec w 0); [intros [= <-]; auto|].
  destruct (Z.leb_spec h 0); [intros [= <-]; auto|].
  discriminate.
Qed.

Lemma is_empty_shape (a b : ndarray) :
  shape a = shape b -> is_empty a = is_empty b.
Proof. unfold shape, is_empty. intros [= -> ->]. reflexivity. Qed.

Lemma new_size_snd (h w : nat) (size ns : Z * Z) :
  new_size h w size = Ok ns -> snd ns = fst size.
Proof.
  unfold new_size.
  destruct (F64.truediv_int _ _) as [r|]; [|discriminate]. cbn [Py.bind].
  destruct (F64.truediv_int_float _ _) as [q|]; [|discriminate]. cbn [Py.bind].
  destruct (F64.to_int q) as [n|]; [|discriminate]. cbn [Py.bind].
  intros [= <-]. reflexivity.
Qed.

End ResizeFacts.

(** C6 as stated fails: for a 3x2 image and target height 4 the quotient
    4 / (3 / 2) = 2.66.. rounds to 3, but the resized image is 2 wide. *)
Lemma resize_to_height_truncates :
  let img := mk_ndarray uint16 3 2 [[1; 2]; [3; 4]; [5; 6]] in
  rounded_width 3 2 (4, 2) = Ok 3 /\
  exists img',
    _resize_to_height (cv := ref_cv) img (4, 2) None = Ok (img', None) /\
    shape img' = (4%nat, 2%nat) /\
    Z.of_nat (ncols img') <> 3.
Proof.
  cbv zeta. split; [vm_compute; reflexivity|].
  eexists. split; [vm_compute; reflexivity|].
  split; [reflexivity|]. vm_compute. discriminate.
Qed.

(** C6 (amended): for a non-empty image, [_resize_to_height] returns an image
    (and a mask) whose height is the target height and whose width is
    [int(size[0] / (h / w))], the quotient truncated toward zero (not
    rounded), whenever that width is positive. *)
Theorem resize_to_height_shape :
  forall (cv : OpenCV) (img : ndarray) (size ns : Z * Z) (mask : option ndarray),
    is_empty img = false ->
    (forall m, mask = Some m -> shape m = shape img) ->
    new_size (nrows img) (ncols img) size = Ok ns ->
    0 < fst ns -> 0 < fst size ->
    exists img' mask',
      _resize_to_height img size (option_map LArr mask) =
        Ok (img', option_map LArr mask') /\
      shape img' = (Z.to_nat (fst size), Z.to_nat (fst ns)) /\
      (forall m', mask' = Some m' -> shape m' = shape img') /\
      (mask = None <-> mask' = None).
Proof.
  intros cv img size [nw nh] mask He Hm Hns Hw Hh.
  pose proof (new_size_snd _ _ _ _ Hns) as Hsnd. cbn [fst snd] in *. subst nh.
  unfold _resize_to_height. rewrite Hns. cbn [Py.bind].
  rewrite (cv2_resize_ok img nw (fst size) INTER_LINEAR He Hw Hh). cbn [Py.bind].
  destruct mask as [m|]; cbn [option_map resize_labels Py.bind].
  - assert (Hem : is_empty m = false).
    { rewrite (is_empty_shape m img); [exact He | apply Hm; reflexivity]. }
    rewrite (cv2_resize_ok m nw (fst size) INTER_NEAREST Hem Hw Hh). cbn [Py.bind].
    eexists. eexists (Some _). split; [reflexivity|].
    split; [reflexivity|]. split.
    + intros m' [= <-]. reflexivity.
    + split; discriminate.
  - eexists. exists None. split; [reflexivity|].
    split; [reflexivity|]. split; [discriminate|]. split; reflexivity.
Qed.

(** A run on a 3x2 image with target height 6. *)
Lemma resize_to_height_shape_witness :
  let img := mk_ndarray uint16 3 2 [[1; 2]; [3; 4]; [5; 6]] in
  let mask := mk_ndarray uint8 3 2 [[0; 0]; [0; 1]; [1; 1]] in
  new_size 3 2 (6, 9) = Ok (4, 6) /\
  exists img' mask',
    _resize_to_height (cv := ref_cv) img (6, 9) (Some (LArr mask)) =
      Ok (img', option_map LArr mask') /\
    shape img' = (6%nat, 4%nat) /\
    (forall m', mask' = Some m' -> shape m' = shape img') /\
    (Some mask = None <-> mask' = None).
Proof.
  cbv zeta.
  assert (Hns : new_size 3 2 (6, 9) = Ok (4, 6)) by (vm_compute; reflexivity).
  split; [exact Hns|].
  refine (resize_to_height_shape ref_cv
            (mk_ndarray uint16 3 2 [[1; 2]; [3; 4]; [5; 6]]) (6, 9) (4, 6)
            (Some (mk_ndarray uint8 3 2 [[0; 0]; [0; 1]; [1; 1]]))
            eq_refl _ Hns eq_refl eq_refl).
  intros m [= <-]. reflexivity.
Defined.

(** Truncation makes the binary64 rounding of the quotient visible: the
    exact value of 4096 / (2 / 93) is 190464. *)
Example new_size_below_exact_quotient :
  new_size 2 93 (4096, 2048) = Ok (190463, 4096).
Proof. vm_compute. reflexivity. Qed.

(** ** Padding or resizing to the target width *)

Section WidthFacts.
Context {cv : OpenCV}.

Lemma padresize_cases (img : ndarray) (size : Z * Z) (mask : option ndarray) :
  0 < fst size -> 0 < snd size -> is_empty img = false ->
  (forall m, mask = Some m -> shape m = shape img) ->
  exists img' mask',
    _padresize_to_width img size (option_map LArr mask) =
      Ok (img', option_map LArr mask') /\
    (mask = None <-> mask' = None) /\
    (forall m', mask' = Some m' -> shape m' = shape img') /\
    nrows img' = (if Z.of_nat (ncols img) >? snd size
                  then Z.to_nat (fst size) else nrows img) /\
    ncols img' = Z.to_nat (snd size) /\
    (Z.of_nat (ncols img) < snd size ->
       cv2_copyMakeBorder_right img (snd size - Z.of_nat (ncols img)) = Ok img' /\
       data img' =
         map (fun r => r ++ repeat 0 (Z.to_nat (snd size) - ncols img)) (data img) /\
       forall m, mask = Some m -> exists m', mask' = Some m' /\
         cv2_copyMakeBorder_right m (snd size - Z.of_nat (ncols img)) = Ok m') /\
    (Z.of_nat (ncols img) > snd size ->
       cv2_resize img (snd size, fst size) INTER_LINEAR = Ok img' /\
       forall m, mask = Some m -> exists m', mask' = Some m' /\
         cv2_resize m (snd size, fst size) INTER_NEAREST = Ok m') /\
    (Z.of_nat (ncols img) = snd size -> img' = img /\ mask' = mask).
Proof.
  intros Hh Hw He Hm. unfold _padresize_to_width.
  destruct (Z.ltb_spec (Z.of_nat (ncols img)) (snd size)) as [Hlt|Hge].
  - (* padding *)
    destruct (Z.gtb_spec (Z.of_nat (ncols img)) (snd size)) as [Hgt|_]; [lia|].
    unfold cv2_copyMakeBorder_right at 1.
    destruct (Z.ltb_spec (snd size - Z.of_nat (ncols img)) 0) as [?|_]; [lia|].
    cbn [Py.bind].
    assert (Hcols : (ncols img + Z.to_nat (snd size - Z.of_nat (ncols img)))%nat
                    = Z.to_nat (snd size)) by lia.
    assert (Hk : Z.to_nat (snd size - Z.of_nat (ncols img))
                 = (Z.to_nat (snd size) - ncols img)%nat) by lia.
    destruct mask as [m|]; cbn [option_map copyMakeBorder_right_labels Py.bind].
    + unfold cv2_copyMakeBorder_right at 1.
      destruct (Z.ltb_spec (snd size - Z.of_nat (ncols img)) 0) as [?|_]; [lia|].
      cbn [Py.bind].
      assert (Hs : shape m = shape img) by (apply Hm; reflexivity).
      injection Hs as Hr Hc.
      eexists. eexists (Some _). split; [reflexivity|].
      split; [split; discriminate|].
      split; [intros m' [= <-]; unfold shape; cbn; congruence|].
      split; [reflexivity|]. split; [exact Hcols|].
      split; [|split; [intros; lia|intros; lia]].
      intros _. split; [unfold cv2_copyMakeBorder_right;
        destruct (Z.ltb_spec (snd size - Z.of_nat (ncols img)) 0); [lia|reflexivity]|].
      split; [cbn; rewrite Hk; reflexivity|].
      intros m0 [= <-]. eexists. split; [reflexivity|].
      unfold cv2_copyMakeBorder_right.
      destruct (Z.ltb_spec (snd size - Z.of_nat (ncols img)) 0); [lia|reflexivity].
    + eexists. exists None. split; [reflexivity|].
      split; [split; reflexivity|]. split; [discriminate|].
      split; [reflexivity|]. split; [exact Hcols|].
      split; [|split; [intros; lia|intros; lia]].
      intros _. split; [unfold cv2_copyMakeBorder_right;
        destruct (Z.ltb_spec (snd size - Z.of_nat (ncols img)) 0); [lia|reflexivity]|].
      split; [cbn; rewrite Hk; reflexivity|]. discriminate.
  - cbn [Py.bind].
    destruct (Z.gtb_spec (Z.of_nat (ncols img)) (snd size)) as [Hgt|Hle].
    + (* resizing *)
      rewrite (cv2_resize_ok img (snd size) (fst size) INTER_LINEAR He Hw Hh).
      cbn [Py.bind].
      destruct mask as [m|]; cbn [option_map resize_labels Py.bind].
      * assert (Hem : is_empty m = false).
        { rewrite (is_empty_shape m img); [exact He | apply Hm; reflexivity]. }
        rewrite (cv2_resize_ok m (snd size) (fst size) INTER_NEAREST Hem Hw Hh).
        cbn [Py.bind].
        eexists. eexists (Some _). split; [reflexivity|].
        split; [split; discriminate|].
        split; [intros m' [= <-]; reflexivity|].
        split; [reflexivity|]. split; [reflexivity|].
        split; [intros; lia|]. split; [|intros; lia].
        intros _. split; [reflexivity|].
        intros m0 [= <-]. eexists. split; [reflexivity|].
        apply cv2_resize_ok; assumption.
      * eexists. exists None. split; [reflexivity|].
        split; [split; reflexivity|]. split; [discriminate|].
        split; [reflexivity|]. split; [reflexivity|].
        split; [intros; lia|]. split; [|intros; lia].
        intros _. split; [reflexivity|]. discriminate.
    + (* the width already matches *)
      exists img, mask. split; [reflexivity|].
      split; [split; auto|]. split; [exact Hm|].
      split; [reflexivity|]. split; [lia|].
      split; [intros; lia|]. split; [intros; lia|].
      intros _. split; reflexivity.
Qed.

End WidthFacts.

Lemma labels_shape_array (l : option labels) (shp : nat * nat) :
  labels_shape l shp ->
  exists mask, l = option_map LArr mask /\ forall m, mask = Some m -> shape m = shp.
Proof.
  destruct l as [[z|a]|]; cbn; intros H.
  - contradiction.
  - exists (Some a). split; [reflexivity|]. intros m [= <-]. exact H.
  - exists None. split; [reflexivity|]. discriminate.
Qed.

Lemma labels_shape_of_array (mask : option ndarray) (shp : nat * nat) :
  (forall m, mask = Some m -> shape m = shp) ->
  labels_shape (option_map LArr mask) shp.
Proof. destruct mask as [m|]; cbn; auto. Qed.

Section HeightThenWidth.
Context {cv : OpenCV}.

Lemma resize_to_height_inv (img img' : ndarray) (size : Z * Z)
    (mask l' : option labels) :
  labels_shape mask (shape img) ->
  _resize_to_height img size mask = Ok (img', l') ->
  0 < fst size /\ is_empty img' = false /\
  nrows img' = Z.to_nat (fst size) /\
  labels_shape l' (shape img') /\
  (mask = None <-> l' = None).
Proof.
  intros Hm. unfold _resize_to_height.
  destruct (new_size _ _ size) as [[nw nh]|] eqn:Hns; [|discriminate].
  pose proof (new_size_snd _ _ _ _ Hns) as Hsnd. cbn [snd] in Hsnd. subst nh.
  cbn [Py.bind].
  destruct (cv2_resize img (nw, fst size) INTER_LINEAR) as [a|] eqn:Hr;
    [|discriminate].
  destruct (cv2_resize_inv _ _ _ _ _ Hr) as (He & Hw & Hh & Hs).
  cbn [Py.bind].
  assert (Hea : is_empty a = false).
  { unfold is_empty. injection Hs as -> ->.
    destruct (Nat.eqb_spec (Z.to_nat (fst size)) 0); [lia|].
    destruct (Nat.eqb_spec (Z.to_nat nw) 0); [lia|]. reflexivity. }
  destruct mask as [[z|m]|]; cbn [labels_shape] in Hm; [contradiction| |].
  - cbn [resize_labels Py.bind].
    destruct (cv2_resize m (nw, fst size) INTER_NEAREST) as [b|] eqn:Hrm;
      [|discriminate].
    destruct (cv2_resize_inv _ _ _ _ _ Hrm) as (_ & _ & _ & Hsb).
    cbn [Py.bind]. intros [= <- <-].
    repeat split; try assumption; try discriminate.
    + injection Hs as -> _. reflexivity.
    + cbn. congruence.
  - intros [= <- <-].
    repeat split; try assumption; try reflexivity.
    injection Hs as -> _. reflexivity.
Qed.

End HeightThenWidth.

(** C2: for a positive target size and a non-empty, height-normalised image
    (with an optional mask of its shape), [_padresize_to_width] returns an
    image whose width is the target width: it pads with zero columns on
    the right when the image is narrower, resizes image and mask to
    (width, height) when it is wider, and returns its arguments when the
    widths agree.  After [_resize_to_height] the result has exactly the
    target shape. *)
Theorem padresize_to_width_exact :
  forall (cv : OpenCV) (size : Z * Z),
    0 < fst size -> 0 < snd size ->
    (forall (img : ndarray) (mask : option ndarray),
       is_empty img = false ->
       nrows img = Z.to_nat (fst size) ->
       (forall m, mask = Some m -> shape m = shape img) ->
       exists img' mask',
         _padresize_to_width img size (option_map LArr mask) =
           Ok (img', option_map LArr mask') /\
         shape img' = (Z.to_nat (fst size), Z.to_nat (snd size)) /\
         (forall m', mask' = Some m' -> shape m' = shape img') /\
         (Z.of_nat (ncols img) < snd size ->
            data img' =
              map (fun r => r ++ repeat 0 (Z.to_nat (snd size) - ncols img))
                  (data img)) /\
         (Z.of_nat (ncols img) > snd size ->
            cv2_resize img (snd size, fst size) INTER_LINEAR = Ok img' /\
            forall m, mask = Some m -> exists m', mask' = Some m' /\
              cv2_resize m (snd size, fst size) INTER_NEAREST = Ok m') /\
         (Z.of_nat (ncols img) = snd size -> img' = img /\ mask' = mask)) /\
    (forall (img img1 : ndarray) (mask l1 : option labels),
       labels_shape mask (shape img) ->
       _resize_to_height img size mask = Ok (img1, l1) ->
       exists img2 l2,
         _padresize_to_width img1 size l1 = Ok (img2, l2) /\
         shape img2 = (Z.to_nat (fst size), Z.to_nat (snd size)) /\
         labels_shape l2 (shape img2) /\
         (mask = None <-> l2 = None)).
Proof.
  intros cv size Hh Hw. split.
  - intros img mask He Hn Hm.
    destruct (padresize_cases img size mask Hh Hw He Hm)
      as (img' & mask' & Hr & _ & Hs & Hrows & Hcols & Hlt & Hgt & Heq).
    exists img', mask'. split; [exact Hr|].
    split.
    { unfold shape. rewrite Hrows, Hcols, Hn.
      destruct (_ >? _); reflexivity. }
    split; [exact Hs|]. split; [|split; [exact Hgt|exact Heq]].
    intros H. apply Hlt. exact H.
  - intros img img1 mask l1 Hm Hr.
    destruct (resize_to_height_inv _ _ _ _ _ Hm Hr) as (_ & He1 & Hn1 & Hl1 & Hnone).
    destruct (labels_shape_array _ _ Hl1) as (mask1 & -> & Hm1).
    destruct (padresize_cases img1 size mask1 Hh Hw He1 Hm1)
      as (img2 & mask2 & Hr2 & Hnone2 & Hs2 & Hrows & Hcols & _).
    exists img2, (option_map LArr mask2). split; [exact Hr2|].
    split.
    { unfold shape. rewrite Hrows, Hcols, Hn1.
      destruct (_ >? _); reflexivity. }
    split; [apply labels_shape_of_array; exact Hs2|].
    rewrite Hnone. destruct mask1, mask2; cbn; split; intros H;
      try discriminate; try reflexivity.
    + destruct Hnone2 as [_ H2]. specialize (H2 eq_refl). discriminate.
    + destruct Hnone2 as [H2 _]. specialize (H2 eq_refl). discriminate.
Qed.

(** A run on a 3x2 image with the target size (3, 4). *)
Lemma padresize_to_width_exact_witness :
  let img := mk_ndarray uint16 3 2 [[1; 2]; [3; 4]; [5; 6]] in
  let mask := mk_ndarray uint8 3 2 [[0; 0]; [0; 1]; [1; 1]] in
  (exists img' mask',
     _padresize_to_width (cv := ref_cv) img (3, 4) (Some (LArr mask)) =
       Ok (img', option_map LArr mask') /\
     shape img' = (3%nat, 4%nat) /\
     (forall m', mask' = Some m' -> shape m' = shape img')) /\
  (forall img1 l1,
     _resize_to_height (cv := ref_cv) img (3, 4) (Some (LArr mask)) = Ok (img1, l1) ->
     exists img2 l2,
       _padresize_to_width (cv := ref_cv) img1 (3, 4) l1 = Ok (img2, l2) /\
       shape img2 = (3%nat, 4%nat) /\
       labels_shape l2 (shape img2)).
Proof.
  cbv zeta.
  pose proof (padresize_to_width_exact ref_cv (3, 4) eq_refl eq_refl) as [Hpad Hcomp].
  split.
  - destruct (Hpad (mk_ndarray uint16 3 2 [[1; 2]; [3; 4]; [5; 6]])
                   (Some (mk_ndarray uint8 3 2 [[0; 0]; [0; 1]; [1; 1]]))
                   eq_refl eq_refl)
      as (img' & mask' & Hr & Hs & Hm & _).
    + intros m [= <-]. reflexivity.
    + exists img', mask'. auto.
  - intros img1 l1 Hr.
    destruct (Hcomp (mk_ndarray uint16 3 2 [[1; 2]; [3; 4]; [5; 6]]) img1 (Some (LArr (mk_ndarray uint8 3 2 [[0; 0]; [0; 1]; [1; 1]])))
                    l1 eq_refl Hr)
      as (img2 & l2 & Hr2 & Hs2 & Hl2 & _).
    exists img2, l2. auto.
Defined.

(** ** Image and mask in lock-step *)

Section LockStep.
Context {cv : OpenCV}.

Lemma np_slice2_shape (a b : ndarray) (y1 y2 x1 x2 : Z) :
  shape a = shape b ->
  shape (np_slice2 a y1 y2 x1 x2) = shape (np_slice2 b y1 y2 x1 x2).
Proof. unfold shape. intros [= Hr Hc]. cbn. rewrite Hr, Hc. reflexivity. Qed.

Lemma cv2_resize_same_shape (a b : ndarray) (dsize : Z * Z) (i j : interpolation) :
  shape a = shape b ->
  match cv2_resize a dsize i with
  | Ok a' => exists b', cv2_resize b dsize j = Ok b' /\ shape b' = shape a'
  | Raise e => cv2_resize b dsize j = Raise e
  end.
Proof.
  intros Hs. destruct dsize as [w h]. unfold cv2_resize.
  rewrite (is_empty_shape a b Hs).
  destruct (is_empty b || (w <=? 0) || (h <=? 0)); [reflexivity|].
  eexists. split; reflexivity.
Qed.

Lemma crop_roi_lockstep (img mask : ndarray) :
  shape mask = shape img ->
  match _crop_roi img None with
  | Ok (img', _) =>
      exists y1 y2 x1 x2,
        img' = np_slice2 img y1 y2 x1 x2 /\
        _crop_roi img (Some (LArr mask)) =
          Ok (img', Some (LArr (np_slice2 mask y1 y2 x1 x2))) /\
        shape (np_slice2 mask y1 y2 x1 x2) = shape img'
  | Raise e => _crop_roi img (Some (LArr mask)) = Raise e
  end.
Proof.
  intros Hs. unfold _crop_roi.
  destruct (_binarize img) as [b|]; [|reflexivity]. cbn [Py.bind].
  destruct (_find_contours b) as [c|]; [|reflexivity]. cbn [Py.bind].
  destruct (np_min_list (map fst c)) as [x1|]; [|reflexivity]. cbn [Py.bind].
  destruct (np_max_list (map fst c)) as [x2|]; [|reflexivity]. cbn [Py.bind].
  destruct (np_min_list (map snd c)) as [y1|]; [|reflexivity]. cbn [Py.bind].
  destruct (np_max_list (map snd c)) as [y2|]; [|reflexivity].
  cbn [Py.bind slice2_labels].
  exists y1, y2, x1, x2. split; [reflexivity|]. split; [reflexivity|].
  apply np_slice2_shape. exact Hs.
Qed.

Lemma resize_to_height_lockstep (img mask : ndarray) (size : Z * Z) :
  shape mask = shape img ->
  match _resize_to_height img size None with
  | Ok (img', _) =>
      exists ns mask',
        cv2_resize img ns INTER_LINEAR = Ok img' /\
        cv2_resize mask ns INTER_NEAREST = Ok mask' /\
        _resize_to_height img size (Some (LArr mask)) =
          Ok (img', Some (LArr mask')) /\
        shape mask' = shape img'
  | Raise e => _resize_to_height img size (Some (LArr mask)) = Raise e
  end.
Proof.
  intros Hs. unfold _resize_to_height.
  destruct (new_size _ _ size) as [ns|]; [|reflexivity]. cbn [Py.bind].
  pose proof (cv2_resize_same_shape img mask ns INTER_LINEAR INTER_NEAREST
                (eq_sym Hs)) as H.
  destruct (cv2_resize img ns INTER_LINEAR) as [a|] eqn:Ha;
    cbn [Py.bind resize_labels].
  - destruct H as (b & Hb & Hsb). rewrite Hb. cbn [Py.bind].
    exists ns, b. repeat split; assumption || reflexivity.
  - reflexivity.
Qed.

Lemma padresize_lockstep (img mask : ndarray) (size : Z * Z) :
  shape mask = shape img ->
  match _padresize_to_width img size None with
  | Ok (img', _) =>
      exists mask',
        _padresize_to_width img size (Some (LArr mask)) =
          Ok (img', Some (LArr mask')) /\
        shape mask' = shape img' /\
        (Z.of_nat (ncols img) < snd size ->
           cv2_copyMakeBorder_right img (snd size - Z.of_nat (ncols img)) = Ok img' /\
           cv2_copyMakeBorder_right mask (snd size - Z.of_nat (ncols img)) = Ok mask') /\
        (Z.of_nat (ncols img) > snd size ->
           cv2_resize img (snd size, fst size) INTER_LINEAR = Ok img' /\
           cv2_resize mask (snd size, fst size) INTER_NEAREST = Ok mask') /\
        (Z.of_nat (ncols img) = snd size -> img' = img /\ mask' = mask)
  | Raise e => _padresize_to_width img size (Some (LArr mask)) = Raise e
  end.
Proof.
  intros Hs. pose proof Hs as Hs'. injection Hs' as Hr Hc.
  unfold _padresize_to_width.
  destruct (Z.ltb_spec (Z.of_nat (ncols img)) (snd size)) as [Hlt|Hge].
  - destruct (Z.gtb_spec (Z.of_nat (ncols img)) (snd size)) as [Hgt|_]; [lia|].
    unfold copyMakeBorder_right_labels, cv2_copyMakeBorder_right.
    destruct (Z.ltb_spec (snd size - Z.of_nat (ncols img)) 0) as [?|_]; [lia|].
    cbn [Py.bind]. eexists. split; [reflexivity|].
    split; [unfold shape; cbn; congruence|].
    split; [auto|]. split; intros; lia.
  - cbn [Py.bind].
    destruct (Z.gtb_spec (Z.of_nat (ncols img)) (snd size)) as [Hgt|Hle].
    + pose proof (cv2_resize_same_shape img mask (snd size, fst size)
                    INTER_LINEAR INTER_NEAREST (eq_sym Hs)) as H.
      destruct (cv2_resize img (snd size, fst size) INTER_LINEAR) as [a|] eqn:Ha;
        cbn [Py.bind resize_labels].
      * destruct H as (b & Hb & Hsb). rewrite Hb. cbn [Py.bind].
        exists b. split; [reflexivity|]. split; [exact Hsb|].
        split; [intros; lia|]. split; [auto|intros; lia].
      * reflexivity.
    + exists mask. split; [reflexivity|]. split; [exact Hs|].
      split; [intros; lia|]. split; [intros; lia|]. auto.
Qed.

End LockStep.

(** C1: for an image and a mask of the same shape, each geometric transform
    fails on the pair exactly as it fails on the image alone, and otherwise
    returns the transformed image together with a mask of the same shape
    that went through the same operation: the same mirroring, the same crop
    box, the same padding, the same target size of [cv2.resize], where the
    mask is resized with [INTER_NEAREST]. *)
Theorem geometric_transforms_keep_mask_in_step :
  forall (cv : OpenCV) (img mask : ndarray),
    shape mask = shape img ->
    (* side-correct *)
    ((_correct_side img None = Ok (img, None) /\
      _correct_side img (Some (LArr mask)) = Ok (img, Some (LArr mask))) \/
     (_correct_side img None = Ok (np_fliplr img, None) /\
      _correct_side img (Some (LArr mask)) =
        Ok (np_fliplr img, Some (LArr (np_fliplr mask))) /\
      shape (np_fliplr mask) = shape (np_fliplr img))) /\
    (* crop-to-ROI *)
    match _crop_roi img None with
    | Ok (img', _) =>
        exists y1 y2 x1 x2,
          img' = np_slice2 img y1 y2 x1 x2 /\
          _crop_roi img (Some (LArr mask)) =
            Ok (img', Some (LArr (np_slice2 mask y1 y2 x1 x2))) /\
          shape (np_slice2 mask y1 y2 x1 x2) = shape img'
    | Raise e => _crop_roi img (Some (LArr mask)) = Raise e
    end /\
    (* resize-to-height *)
    (forall size,
       match _resize_to_height img size None with
       | Ok (img', _) =>
           exists ns mask',
             cv2_resize img ns INTER_LINEAR = Ok img' /\
             cv2_resize mask ns INTER_NEAREST = Ok mask' /\
             _resize_to_height img size (Some (LArr mask)) =
               Ok (img', Some (LArr mask')) /\
             shape mask' = shape img'
       | Raise e => _resize_to_height img size (Some (LArr mask)) = Raise e
       end) /\
    (* pad-or-resize-to-width *)
    (forall size,
       match _padresize_to_width img size None with
       | Ok (img', _) =>
           exists mask',
             _padresize_to_width img size (Some (LArr mask)) =
               Ok (img', Some (LArr mask')) /\
             shape mask' = shape img' /\
             (Z.of_nat (ncols img) < snd size ->
                cv2_copyMakeBorder_right img (snd size - Z.of_nat (ncols img))
                  = Ok img' /\
                cv2_copyMakeBorder_right mask (snd size - Z.of_nat (ncols img))
                  = Ok mask') /\
             (Z.of_nat (ncols img) > snd size ->
                cv2_resize img (snd size, fst size) INTER_LINEAR = Ok img' /\
                cv2_resize mask (snd size, fst size) INTER_NEAREST = Ok mask') /\
             (Z.of_nat (ncols img) = snd size -> img' = img /\ mask' = mask)
       | Raise e => _padresize_to_width img size (Some (LArr mask)) = Raise e
       end).
Proof.
  intros cv img mask Hs. split; [|split; [|split]].
  - unfold _correct_side.
    destruct (_ >? _); [left; split; reflexivity|].
    right. cbn [fliplr_labels Py.bind]. split; [reflexivity|].
    split; [reflexivity|]. unfold shape in *. cbn. exact Hs.
  - apply crop_roi_lockstep. exact Hs.
  - intros size. apply resize_to_height_lockstep. exact Hs.
  - intros size. apply padresize_lockstep. exact Hs.
Qed.

(** A run of the four transforms on a 3x3 image and its mask. *)
Lemma geometric_transforms_keep_mask_in_step_witness :
  let img := mk_ndarray uint16 3 3 [[0; 0; 0]; [0; 100; 300]; [0; 0; 200]] in
  let mask := mk_ndarray uint8 3 3 [[0; 0; 0]; [0; 1; 2]; [0; 0; 2]] in
  shape mask = shape img /\
  _correct_side img (Some (LArr mask)) =
    Ok (np_fliplr img, Some (LArr (np_fliplr mask))) /\
  _crop_roi (cv := ref_cv) img (Some (LArr mask)) =
    Ok (mk_ndarray uint16 1 1 [[100]], Some (LArr (mk_ndarray uint8 1 1 [[1]]))) /\
  (exists img' mask',
     _resize_to_height (cv := ref_cv) img (6, 4) (Some (LArr mask)) =
       Ok (img', Some (LArr mask')) /\ shape mask' = shape img') /\
  (exists img' mask',
     _padresize_to_width (cv := ref_cv) img (3, 5) (Some (LArr mask)) =
       Ok (img', Some (LArr mask')) /\ shape mask' = shape img').
Proof.
  cbv zeta.
  pose proof (geometric_transforms_keep_mask_in_step ref_cv
    (mk_ndarray uint16 3 3 [[0; 0; 0]; [0; 100; 300]; [0; 0; 200]])
    (mk_ndarray uint8 3 3 [[0; 0; 0]; [0; 1; 2]; [0; 0; 2]]) eq_refl)
    as (Hside & Hcrop & Hres & Hpad).
  split; [reflexivity|].
  split; [vm_compute; reflexivity|].
  split; [vm_compute; reflexivity|].
  split.
  - specialize (Hres (6, 4)).
    destruct (_resize_to_height _ (6, 4) None) as [[img' l]|e] eqn:E.
    + destruct Hres as (ns & mask' & _ & _ & Hr & Hsh).
      exists img', mask'. auto.
    + vm_compute in E. discriminate.
  - specialize (Hpad (3, 5)).
    destruct (_padresize_to_width _ (3, 5) None) as [[img' l]|e] eqn:E.
    + destruct Hpad as (mask' & Hr & Hsh & _).
      exists img', mask'. auto.
    + vm_compute in E. discriminate.
Defined.

(** ** Degenerate images *)

Lemma fold_left_max_zero (l : list Z) :
  Forall (fun p => p = 0) l -> fold_left Z.max l 0 = 0.
Proof. induction 1 as [|x l -> _ IH]; cbn; [reflexivity | exact IH]. Qed.

Lemma concat_all_zero (rows : list (list Z)) :
  Forall (Forall (fun p => p = 0)) rows -> Forall (fun p => p = 0) (concat rows).
Proof.
  induction 1 as [|r rows Hr _ IH]; cbn; [constructor|].
  apply Forall_app. split; assumption.
Qed.

Lemma np_max_all_zero (a : ndarray) :
  all_zero a -> np_max a = Ok 0 \/ np_max a = Raise ValueError.
Proof.
  intros Hz. unfold np_max, list_max.
  pose proof (concat_all_zero _ Hz) as Hc.
  destruct (concat (data a)) as [|x t]; [right; reflexivity|].
  left. inversion Hc as [|? ? -> Ht]; subst.
  rewrite fold_left_max_zero by exact Ht. reflexivity.
Qed.

Lemma map_all_zero (f : Z -> Z) (rows : list (list Z)) :
  f 0 = 0 ->
  Forall (Forall (fun p => p = 0)) rows ->
  Forall (Forall (fun p => p = 0)) (map (map f) rows).
Proof.
  intros Hf. induction 1 as [|r rows Hr _ IH]; cbn; constructor; [|exact IH].
  induction Hr as [|x r -> _ IHr]; cbn; constructor; [exact Hf | exact IHr].
Qed.

Lemma binarize_all_zero (img : ndarray) :
  all_zero img ->
  (exists b, _binarize img = Ok b /\ all_zero b) \/ _binarize img = Raise ValueError.
Proof.
  intros Hz. unfold _binarize.
  destruct (np_max_all_zero img Hz) as [-> | ->]; [left|right; reflexivity].
  cbn [Py.bind]. eexists. split; [reflexivity|].
  unfold all_zero. cbn [data]. apply map_all_zero; [reflexivity | exact Hz].
Qed.

Lemma binarize_dtype (img b : ndarray) : _binarize img = Ok b -> dtype_of b = uint8.
Proof.
  unfold _binarize. destruct (np_max img); [|discriminate].
  cbn [Py.bind]. intros [= <-]. reflexivity.
Qed.

Lemma find_contours_uint8 {cv : OpenCV} (b : ndarray) :
  dtype_of b = uint8 ->
  _find_contours b = py_max_key contourArea (findContours b).
Proof.
  intros Hd. unfold _find_contours, cv2_findContours. rewrite Hd. reflexivity.
Qed.

Lemma find_contours_not_uint8 {cv : OpenCV} (b : ndarray) :
  dtype_of b <> uint8 -> _find_contours b = Raise cv2_error.
Proof.
  intros Hd. unfold _find_contours, cv2_findContours.
  destruct (dtype_of b); [contradiction | reflexivity].
Qed.

Lemma fg_points_all_zero (b : ndarray) : all_zero b -> fg_points b = [].
Proof.
  unfold all_zero, fg_points, indexed.
  generalize (seq 0 (length (data b))).
  induction (data b) as [|r rows IH]; intros idx Hz; [destruct idx; reflexivity|].
  destruct idx as [|y idx]; [reflexivity|].
  inversion Hz as [|? ? Hr Hrows]; subst. cbn [combine map concat].
  rewrite (IH idx Hrows), app_nil_r. cbn [fst snd].
  clear -Hr. generalize (seq 0 (length r)).
  induction Hr as [|p r -> _ IHr]; intros js; [destruct js; reflexivity|].
  destruct js as [|j js]; [reflexivity|]. cbn. apply IHr.
Qed.

Lemma ref_findContours_all_zero (b : ndarray) :
  all_zero b -> findContours (OpenCV := ref_cv) b = [].
Proof.
  intros Hz. cbn. unfold ref_findContours. rewrite (fg_points_all_zero b Hz).
  reflexivity.
Qed.

(** C9 as stated fails: the code has no error of its own for the degenerate
    region.  The 8-bit image of zeros makes [max] raise the built-in
    [ValueError], the exception that mirroring an integer mask raises on an
    image that is not zero at all; and a 16-bit image, of zeros or not, is
    rejected by [cv2.findContours] with [cv2.error] before any contour is
    looked for. *)
Lemma zero_image_error_is_not_specific :
  let z8 := mk_ndarray uint8 2 3 [[0; 0; 0]; [0; 0; 0]] in
  let z16 := mk_ndarray uint16 2 3 [[0; 0; 0]; [0; 0; 0]] in
  let nz16 := mk_ndarray uint16 2 3 [[0; 7; 0]; [0; 9; 0]] in
  let nz := mk_ndarray uint16 1 2 [[0; 5]] in
  _find_contours (cv := ref_cv) z8 = Raise ValueError /\
  _correct_side nz (Some (LInt 0)) = Raise ValueError /\
  ~ all_zero nz /\
  _find_contours (cv := ref_cv) z16 = Raise cv2_error /\
  _find_contours (cv := ref_cv) nz16 = Raise cv2_error /\
  ~ all_zero nz16.
Proof.
  cbv zeta. split; [reflexivity|]. split; [reflexivity|].
  split; [intros H; inversion H as [|? ? Hr _]; inversion Hr as [|? ? _ Hr'];
          inversion Hr' as [|? ? H5 _]; discriminate|].
  split; [reflexivity|]. split; [reflexivity|].
  intros H. inversion H as [|? ? Hr _]. inversion Hr as [|? ? _ Hr'].
  inversion Hr' as [|? ? H7 _]. discriminate.
Qed.

(** C9 (amended): [cv2.findContours] reports no contour in an image without
    a non-zero pixel.  On every uniformly zero image the search of the
    largest contour therefore fails: on an 8-bit image with the built-in
    [ValueError] of [max] over no contour, on an image of another dtype
    with the [cv2.error] of [cv2.findContours].  Behind [_binarize], whose
    result is 8-bit, it is the [ValueError]; it propagates out of
    [_crop_roi] and [_remove_background], which never return a region. *)
Theorem find_contours_fails_on_zero_image :
  forall (cv : OpenCV) (img : ndarray),
    (forall b, all_zero b -> findContours b = []) ->
    all_zero img ->
    (dtype_of img = uint8 -> _find_contours img = Raise ValueError) /\
    (dtype_of img <> uint8 -> _find_contours img = Raise cv2_error) /\
    (b <- _binarize img ;; _find_contours b) = Raise ValueError /\
    (forall mask, _crop_roi img mask = Raise ValueError) /\
    (forall remove_wlines, _remove_background img remove_wlines = Raise ValueError).
Proof.
  intros cv img Hcv Hz.
  assert (H : forall A (k : contour -> result A),
             (b <- _binarize img ;; c <- _find_contours b ;; k c) = Raise ValueError).
  { intros A k.
    destruct (binarize_all_zero img Hz) as [(b & Hbin & Hb) | Hbin];
      rewrite Hbin; [|reflexivity].
    cbn [Py.bind].
    rewrite (find_contours_uint8 b (binarize_dtype _ _ Hbin)), (Hcv b Hb).
    reflexivity. }
  split; [|split; [|split; [|split]]].
  - intros Hd. rewrite (find_contours_uint8 img Hd), (Hcv img Hz). reflexivity.
  - apply find_contours_not_uint8.
  - specialize (H contour (fun c => Ok c)).
    destruct (_binarize img) as [b|]; cbn [Py.bind] in *; [|exact H].
    destruct (_find_contours b); cbn [Py.bind] in H; [discriminate | exact H].
  - intros mask. unfold _crop_roi. apply H.
  - intros rw. unfold _remove_background.
    destruct (binarize_all_zero img Hz) as [(b & Hbin & Hb) | Hbin];
      rewrite Hbin; [|reflexivity].
    cbn [Py.bind].
    rewrite (find_contours_uint8 b (binarize_dtype _ _ Hbin)), (Hcv b Hb).
    reflexivity.
Qed.

(** A run on a 2x3 image of zeros, on 8 bits and on 16 bits. *)
Lemma find_contours_fails_on_zero_image_witness :
  let img := mk_ndarray uint16 2 3 [[0; 0; 0]; [0; 0; 0]] in
  let img8 := mk_ndarray uint8 2 3 [[0; 0; 0]; [0; 0; 0]] in
  all_zero img /\ all_zero img8 /\
  _find_contours (cv := ref_cv) img8 = Raise ValueError /\
  _find_contours (cv := ref_cv) img = Raise cv2_error /\
  (b <- _binarize img ;; _find_contours (cv := ref_cv) b) = Raise ValueError /\
  _crop_roi (cv := ref_cv) img None = Raise ValueError /\
  _remove_background (cv := ref_cv) img false = Raise ValueError.
Proof.
  cbv zeta.
  assert (Hz : all_zero (mk_ndarray uint16 2 3 [[0; 0; 0]; [0; 0; 0]])).
  { repeat constructor. }
  assert (Hz8 : all_zero (mk_ndarray uint8 2 3 [[0; 0; 0]; [0; 0; 0]])).
  { repeat constructor. }
  destruct (find_contours_fails_on_zero_image ref_cv _ ref_findContours_all_zero Hz)
    as (_ & H0 & H1 & H2 & H3).
  destruct (find_contours_fails_on_zero_image ref_cv _ ref_findContours_all_zero Hz8)
    as (H8 & _).
  split; [exact Hz|]. split; [exact Hz8|].
  split; [apply H8; reflexivity|]. split; [apply H0; discriminate|].
  split; [exact H1|]. split; [apply H2 | apply H3].
Defined.

(** ** Background removal *)

Lemma nth_tabulate {A} (n : nat) (f : nat -> A) (i : nat) (d : A) :
  (i < n)%nat -> nth i (tabulate n f) d = f i.
Proof.
  intros Hi. unfold tabulate.
  rewrite (nth_indep _ d (f 0%nat)) by (rewrite length_map, length_seq; exact Hi).
  rewrite map_nth, seq_nth by exact Hi. reflexivity.
Qed.

Lemma px_drawContours {cv : OpenCV} (h w : nat) (c : contour) (y x : nat) :
  (y < h)%nat -> (x < w)%nat ->
  px (cv2_drawContours_filled h w c) y x = if filled c y x then 255 else 0.
Proof.
  intros Hy Hx. unfold px, cv2_drawContours_filled. cbn [data].
  rewrite nth_tabulate by exact Hy. apply nth_tabulate. exact Hx.
Qed.

Lemma nth_map2 {A B C} (f : A -> B -> C) (l1 : list A) (l2 : list B)
    (i : nat) (da : A) (db : B) (dc : C) :
  (i < length l1)%nat -> (i < length l2)%nat ->
  nth i (map2 f l1 l2) dc = f (nth i l1 da) (nth i l2 db).
Proof.
  revert l2 i. induction l1 as [|a l1 IH]; intros [|b l2] [|i] H1 H2;
    cbn in *; try lia; [reflexivity|].
  apply IH; lia.
Qed.

Lemma wf_row (a : ndarray) (y : nat) :
  wf a -> (y < nrows a)%nat -> length (nth y (data a) []) = ncols a.
Proof.
  intros [Hlen Hrows] Hy. rewrite Forall_forall in Hrows.
  apply Hrows, nth_In. lia.
Qed.

Lemma px_np_mul (a b : ndarray) (y x : nat) :
  wf a -> wf b -> shape b = shape a ->
  (y < nrows a)%nat -> (x < ncols a)%nat ->
  px (np_mul a b) y x = wrap (dtype_of a) (px a y x * px b y x).
Proof.
  intros Ha Hb Hs Hy Hx. injection Hs as Hr Hc.
  unfold px, np_mul. cbn [data].
  rewrite (nth_map2 _ _ _ _ [] [] []) by (destruct Ha, Hb; lia).
  rewrite (nth_map2 _ _ _ _ 0 0 0); [reflexivity| |];
    rewrite wf_row; lia || assumption.
Qed.

Lemma wf_drawContours {cv : OpenCV} (h w : nat) (c : contour) :
  wf (cv2_drawContours_filled h w c).
Proof.
  unfold wf, cv2_drawContours_filled, tabulate. cbn. split.
  - rewrite length_map, length_seq. reflexivity.
  - apply Forall_forall. intros r Hin. apply in_map_iff in Hin as (y & <- & _).
    rewrite length_map, length_seq. reflexivity.
Qed.

(** What [_remove_background] computes with [remove_wlines=False]: the
    contour mask holds 255, not 1, inside of the filled region, and the
    product is taken in the dtype of the image. *)
Lemma remove_background_px {cv : OpenCV} (img out : ndarray) :
  wf img ->
  _remove_background img false = Ok out ->
  exists b c,
    _binarize img = Ok b /\ _find_contours b = Ok c /\
    forall y x, (y < nrows img)%nat -> (x < ncols img)%nat ->
      px out y x =
      if filled c y x then wrap (dtype_of img) (px img y x * 255) else 0.
Proof.
  intros Hwf. unfold _remove_background.
  destruct (_binarize img) as [b|] eqn:Hb; [|discriminate]. cbn [Py.bind].
  destruct (_find_contours b) as [c|] eqn:Hc; [|discriminate]. cbn [Py.bind].
  intros [= <-]. exists b, c. split; [reflexivity|]. split; [exact Hc|].
  intros y x Hy Hx.
  assert (Hshape : nrows b = nrows img /\ ncols b = ncols img).
  { unfold _binarize in Hb. destruct (np_max img); [|discriminate].
    cbn [Py.bind] in Hb. injection Hb as <-. split; reflexivity. }
  destruct Hshape as [Hr Hcn]. rewrite Hr, Hcn.
  rewrite px_np_mul; try assumption; try apply wf_drawContours; try reflexivity.
  rewrite px_drawContours by assumption.
  destruct (filled c y x); [reflexivity|].
  rewrite Z.mul_0_r. unfold wrap. apply Z.mod_0_l.
  destruct (dtype_of img); cbn; lia.
Qed.

(** C4 fails on the code.  The one bright pixel of this 16-bit image lies in
    the filled contour region, and [_remove_background] returns it
    multiplied by 255 modulo 2^16 (300 * 255 = 76500 = 65536 + 10964)
    instead of unchanged: the contour mask is drawn with 255 and is divided
    by its maximum only under [remove_wlines]. *)
Theorem remove_background_scales_region_by_255 :
  let img := mk_ndarray uint16 3 3 [[0; 0; 0]; [0; 300; 0]; [0; 0; 0]] in
  (exists b c, _binarize img = Ok b /\
     _find_contours (cv := ref_cv) b = Ok c /\
     filled (OpenCV := ref_cv) c 1 1 = true) /\
  _remove_background (cv := ref_cv) img false =
    Ok (mk_ndarray uint16 3 3 [[0; 0; 0]; [0; 10964; 0]; [0; 0; 0]]) /\
  10964 = wrap uint16 (300 * 255) /\
  10964 <> px img 1 1.
Proof.
  cbv zeta. split.
  - eexists. eexists. split; [vm_compute; reflexivity|].
    split; [vm_compute; reflexivity|]. vm_compute. reflexivity.
  - split; [vm_compute; reflexivity|]. split; [reflexivity|].
    vm_compute. discriminate.
Qed.

(** ** Mask composition without a metadata row *)

Lemma np_max_raise (a : ndarray) (e : exn) : np_max a = Raise e -> e = ValueError.
Proof. unfold np_max. destruct (list_max _); [discriminate | intros [= <-]; reflexivity]. Qed.

Lemma binarize_raise (img : ndarray) (e : exn) :
  _binarize img = Raise e -> e = ValueError.
Proof.
  unfold _binarize. destruct (np_max img) eqn:E; [discriminate|].
  cbn [Py.bind]. intros [= <-]. exact (np_max_raise _ _ E).
Qed.

Lemma find_contours_raise {cv : OpenCV} (b : ndarray) (e : exn) :
  dtype_of b = uint8 -> _find_contours b = Raise e -> e = ValueError.
Proof.
  intros Hd. rewrite (find_contours_uint8 b Hd). unfold py_max_key.
  destruct (findContours b); [intros [= <-]; reflexivity | discriminate].
Qed.

Lemma np_min_list_raise (l : list Z) (e : exn) :
  np_min_list l = Raise e -> e = ValueError.
Proof. destruct l; [intros [= <-]; reflexivity | discriminate]. Qed.

Lemma np_max_list_raise (l : list Z) (e : exn) :
  np_max_list l = Raise e -> e = ValueError.
Proof. destruct l; [intros [= <-]; reflexivity | discriminate]. Qed.

Lemma remove_background_raise {cv : OpenCV} (img : ndarray) (e : exn) :
  _remove_background img false = Raise e -> e = ValueError.
Proof.
  unfold _remove_background.
  destruct (_binarize img) as [b|e1] eqn:Hb; cbn [Py.bind];
    [|intros [= <-]; exact (binarize_raise _ _ Hb)].
  destruct (_find_contours b) as [c|e2] eqn:Hc; cbn [Py.bind];
    [discriminate
    | intros [= <-]; exact (find_contours_raise _ _ (binarize_dtype _ _ Hb) Hc)].
Qed.

(** A Python int in the place of the mask stops [_crop_roi]. *)
Lemma crop_roi_int_mask {cv : OpenCV} (img : ndarray) (z : Z) :
  exists e, _crop_roi img (Some (LInt z)) = Raise e /\
            (e = ValueError \/ e = TypeError).
Proof.
  unfold _crop_roi.
  destruct (_binarize img) as [b|e] eqn:Hb; cbn [Py.bind];
    [|exists e; split; [reflexivity | left; exact (binarize_raise _ _ Hb)]].
  destruct (_find_contours b) as [c|e] eqn:Hc; cbn [Py.bind];
    [|exists e; split;
      [reflexivity | left; exact (find_contours_raise _ _ (binarize_dtype _ _ Hb) Hc)]].
  destruct (np_min_list (map fst c)) as [x1|e] eqn:H1; cbn [Py.bind];
    [|exists e; split; [reflexivity | left; exact (np_min_list_raise _ _ H1)]].
  destruct (np_max_list (map fst c)) as [x2|e] eqn:H2; cbn [Py.bind];
    [|exists e; split; [reflexivity | left; exact (np_max_list_raise _ _ H2)]].
  destruct (np_min_list (map snd c)) as [y1|e] eqn:H3; cbn [Py.bind];
    [|exists e; split; [reflexivity | left; exact (np_min_list_raise _ _ H3)]].
  destruct (np_max_list (map snd c)) as [y2|e] eqn:H4; cbn [Py.bind];
    [|exists e; split; [reflexivity | left; exact (np_max_list_raise _ _ H4)]].
  exists TypeError. split; [reflexivity | right; reflexivity].
Qed.

Lemma filter_no_row (path : string) (rows : list row) :
  Forall (fun r => full_img_fname r <> path) rows ->
  filter (fun r => String.eqb (full_img_fname r) path) rows = [].
Proof.
  induction 1 as [|r rows Hr _ IH]; cbn; [reflexivity|].
  destruct (String.eqb_spec (full_img_fname r) path); [contradiction | exact IH].
Qed.

(** C10 as stated fails: the table has no row for "b.dcm", and
    [_combine_masks] returns the integer 0 instead of raising. *)
Lemma combine_masks_returns_zero_without_row :
  let self := mk_cbis (4096, 2048) [mk_row "a.dcm" "a_mask.dcm" 1] in
  _combine_masks (fs := files_of []) self "b.dcm" = Ok (LInt 0) /\
  forall e, _combine_masks (fs := files_of []) self "b.dcm" <> Raise e.
Proof.
  cbv zeta. split; [reflexivity | discriminate].
Qed.

(** C10 (amended): for a path without a row in the table, [_combine_masks]
    does not raise: it returns its initial value, the integer 0.  The
    pipeline then fails for this image in a later step: with the decoder's
    exception when the image cannot be read, and otherwise with a
    [ValueError] (mirroring the integer, or no contour) or with the
    [TypeError] of subscripting the integer in [_crop_roi].  It never
    returns an image. *)
Theorem preprocess_image_without_row :
  forall (cv : OpenCV) (fs : Files) (self : MammoPreprocessorCBISDDSM)
         (path : string),
    Forall (fun r => full_img_fname r <> path) (df self) ->
    _combine_masks self path = Ok (LInt 0) /\
    forall (fformat : string) (hist_eq save : bool),
    exists e,
      preprocess_image self path fformat hist_eq save = Raise e /\
      (forall img, pixelData path = Ok img -> e = ValueError \/ e = TypeError).
Proof.
  intros cv fs self path Hno.
  assert (Hc : _combine_masks self path = Ok (LInt 0)).
  { unfold _combine_masks. rewrite (filter_no_row _ _ Hno). reflexivity. }
  split; [exact Hc|].
  intros fformat hist_eq save. unfold preprocess_image.
  destruct (pixelData path) as [img|e] eqn:Hp; cbn [Py.bind];
    [|exists e; split; [reflexivity | discriminate]].
  rewrite Hc. cbn [Py.bind].
  unfold _correct_side.
  destruct (_ >? _); cbn [Py.bind fliplr_labels];
    [|exists ValueError; split; [reflexivity | auto]].
  destruct (_remove_background img false) as [img1|e] eqn:Hb; cbn [Py.bind];
    [|exists e; split; [reflexivity | intros; left; exact (remove_background_raise _ _ Hb)]].
  destruct (crop_roi_int_mask img1 0) as (e & -> & He).
  exists e. split; [reflexivity | intros; exact He].
Qed.

(** A run on a decodable image whose path has no row. *)
Lemma preprocess_image_without_row_witness :
  let img := mk_ndarray uint16 3 3 [[0; 0; 0]; [300; 200; 0]; [100; 0; 0]] in
  let fs := files_of [("b.dcm"%string, img)] in
  let self := mk_cbis (4096, 2048) [mk_row "a.dcm" "a_mask.dcm" 1] in
  _combine_masks (fs := fs) self "b.dcm" = Ok (LInt 0) /\
  preprocess_image (cv := ref_cv) (fs := fs) self "b.dcm" "png" false false =
    Raise TypeError.
Proof.
  cbv zeta.
  destruct (preprocess_image_without_row ref_cv
              (files_of [("b.dcm"%string,
                          mk_ndarray uint16 3 3 [[0; 0; 0]; [300; 200; 0]; [100; 0; 0]])])
              (mk_cbis (4096, 2048) [mk_row "a.dcm" "a_mask.dcm" 1]) "b.dcm")
    as [Hc _].
  - repeat constructor. discriminate.
  - split; [exact Hc | vm_compute; reflexivity].
Defined.

(** ** Conversion to 8 bits *)

Lemma fold_left_max_spec (l : list Z) (x : Z) :
  let m := fold_left Z.max l x in
  (m = x \/ In m l) /\ x <= m /\ Forall (fun y => y <= m) l.
Proof.
  revert x. induction l as [|a l IH]; intros x; cbn.
  - split; [left; reflexivity|]. split; [lia | constructor].
  - specialize (IH (Z.max x a)). cbv zeta in IH.
    set (m := fold_left Z.max l (Z.max x a)) in *.
    destruct IH as ([Hm | Hm] & Hle & Hall).
    + split; [|split; [lia|constructor; [lia | exact Hall]]].
      destruct (Z.max_spec x a) as [[_ E] | [_ E]];
        [right; left; congruence | left; congruence].
    + split; [auto|]. split; [lia|constructor; [lia | exact Hall]].
Qed.

Lemma list_max_spec (l : list Z) (m : Z) :
  list_max l = Some m -> In m l /\ Forall (fun y => y <= m) l.
Proof.
  destruct l as [|x t]; [discriminate|]. cbn. intros [= <-].
  destruct (fold_left_max_spec t x) as ([H | H] & Hle & Hall).
  - split; [left; symmetry; exact H | constructor; assumption].
  - split; [right; exact H | constructor; assumption].
Qed.

Lemma in_concat_px (a : ndarray) (v : Z) :
  wf a -> In v (concat (data a)) ->
  exists y x, (y < nrows a)%nat /\ (x < ncols a)%nat /\ px a y x = v.
Proof.
  intros [Hlen Hrows] Hin. apply in_concat in Hin as (r & Hr & Hv).
  apply (In_nth _ _ []) in Hr as (y & Hy & <-).
  pose proof Hv as Hv'. apply (In_nth _ _ 0) in Hv' as (x & Hx & <-).
  exists y, x. split; [lia|]. split; [|reflexivity].
  rewrite Forall_forall in Hrows. rewrite <- (Hrows (nth y (data a) [])); [exact Hx|].
  apply nth_In. exact Hy.
Qed.

Lemma px_in_concat (a : ndarray) (y x : nat) :
  wf a -> (y < nrows a)%nat -> (x < ncols a)%nat ->
  In (px a y x) (concat (data a)).
Proof.
  intros Hwf Hy Hx. apply in_concat. exists (nth y (data a) []). split.
  - apply nth_In. destruct Hwf. lia.
  - apply nth_In. rewrite wf_row by assumption. exact Hx.
Qed.

Lemma px_in_range (a : ndarray) (y x : nat) :
  wf a -> in_range a -> (y < nrows a)%nat -> (x < ncols a)%nat ->
  0 <= px a y x < 2 ^ bits (dtype_of a).
Proof.
  intros Hwf Hr Hy Hx. unfold in_range in Hr. rewrite Forall_forall in Hr.
  assert (Hrow : In (nth y (data a) []) (data a)) by (apply nth_In; destruct Hwf; lia).
  specialize (Hr _ Hrow). rewrite Forall_forall in Hr. apply Hr.
  apply nth_In. rewrite wf_row by assumption. exact Hx.
Qed.

Lemma px_map (f : Z -> Z) (a : ndarray) (d : dtype) (y x : nat) :
  wf a -> (y < nrows a)%nat -> (x < ncols a)%nat ->
  px (mk_ndarray d (nrows a) (ncols a) (map (map f) (data a))) y x = f (px a y x).
Proof.
  intros Hwf Hy Hx. unfold px. cbn [data].
  change (@nil Z) with (map f []) at 1. rewrite map_nth.
  rewrite (nth_indep _ 0 (f 0)) by (rewrite length_map, wf_row; assumption).
  apply map_nth.
Qed.

(** The rescaled pixel: [p / m * 255] truncated is the integer quotient. *)
Lemma Qtrunc_scaled (p m k : Z) :
  0 <= p -> 0 < m -> 0 <= k ->
  Qtrunc (inject_Z p / inject_Z m * inject_Z k)%Q = (p * k) / m.
Proof.
  intros Hp Hm Hk. destruct m as [|pm|pm]; try lia.
  unfold Qtrunc, Qdiv, Qinv, Qmult, inject_Z. cbn [Qnum Qden].
  rewrite Z.quot_div_nonneg by lia.
  rewrite Z.mul_1_r, Pos.mul_1_l, Pos.mul_1_r. reflexivity.
Qed.

Lemma convert_px (p m : Z) :
  0 <= p <= m -> 0 < m ->
  cast uint8 (inject_Z p / inject_Z m * 255)%Q = (p * 255) / m /\
  0 <= (p * 255) / m <= 255.
Proof.
  intros Hp Hm. unfold cast.
  change 255%Q with (inject_Z 255). rewrite Qtrunc_scaled by lia.
  assert (Hb : 0 <= p * 255 / m <= 255).
  { split; [apply Z.div_pos; lia|].
    apply Z.div_le_upper_bound; [lia | nia]. }
  split; [|exact Hb]. unfold wrap. apply Z.mod_small. cbn. lia.
Qed.

(** C8 as stated fails: [[1 2]] is not constant, and its conversion
    [[127 255]] does not contain 0. *)
Lemma convert_to_8bit_keeps_black_point :
  let img := mk_ndarray uint16 1 2 [[1; 2]] in
  _convert_to_8bit img = Ok (mk_ndarray uint8 1 2 [[127; 255]]) /\
  ~ In 0 [127; 255].
Proof.
  cbv zeta. split; [vm_compute; reflexivity|].
  cbn. intros [H | [H | []]]; discriminate.
Qed.

(** C8 (amended): for an array of unsigned integers whose maximum [m] is
    positive, [_convert_to_8bit] returns a [uint8] array of the same shape
    whose pixel is [p * 255 / m] truncated: every value lies in [0, 255],
    the value 255 is attained (at each maximal pixel), and a pixel becomes 0
    exactly when [255 * p < m], so that 0 is attained only if the array has
    such a pixel. *)
Theorem convert_to_8bit_range :
  forall (img : ndarray) (m : Z),
    wf img -> in_range img -> np_max img = Ok m -> 0 < m ->
    exists out,
      _convert_to_8bit img = Ok out /\
      dtype_of out = uint8 /\ shape out = shape img /\
      (forall y x, (y < nrows img)%nat -> (x < ncols img)%nat ->
         px out y x = (px img y x * 255) / m /\
         0 <= px out y x <= 255 /\
         (px img y x = m -> px out y x = 255) /\
         (px out y x = 0 <-> 255 * px img y x < m)) /\
      (exists y x, (y < nrows img)%nat /\ (x < ncols img)%nat /\ px out y x = 255).
Proof.
  intros img m Hwf Hr Hmax Hm.
  unfold _convert_to_8bit. rewrite Hmax. cbn [Py.bind].
  eexists. split; [reflexivity|]. split; [reflexivity|]. split; [reflexivity|].
  assert (Hspec : In m (concat (data img)) /\
                  Forall (fun y => y <= m) (concat (data img))).
  { unfold np_max in Hmax. destruct (list_max _) eqn:E; [|discriminate].
    injection Hmax as ->. apply list_max_spec. exact E. }
  destruct Hspec as [Hin Hall].
  assert (Hpx : forall y x, (y < nrows img)%nat -> (x < ncols img)%nat ->
                  0 <= px img y x <= m).
  { intros y x Hy Hx. split; [apply (px_in_range img y x); assumption|].
    rewrite Forall_forall in Hall. apply Hall, px_in_concat; assumption. }
  split.
  - intros y x Hy Hx. rewrite px_map by assumption.
    destruct (convert_px (px img y x) m (Hpx y x Hy Hx) Hm) as [-> Hb].
    split; [reflexivity|]. split; [exact Hb|]. split.
    + intros ->. rewrite Z.mul_comm. apply Z.div_mul. lia.
    + rewrite Z.div_small_iff by lia. specialize (Hpx y x Hy Hx). lia.
  - destruct (in_concat_px img m Hwf Hin) as (y & x & Hy & Hx & Hv).
    exists y, x. split; [exact Hy|]. split; [exact Hx|].
    rewrite px_map by assumption.
    destruct (convert_px (px img y x) m (Hpx y x Hy Hx) Hm) as [-> _].
    rewrite Hv, Z.mul_comm. apply Z.div_mul. lia.
Qed.

(** A run on a 2x2 image with maximum 1000. *)
Lemma convert_to_8bit_range_witness :
  let img := mk_ndarray uint16 2 2 [[0; 100]; [300; 1000]] in
  wf img /\ in_range img /\ np_max img = Ok 1000 /\
  exists out,
    _convert_to_8bit img = Ok out /\
    (forall y x, (y < 2)%nat -> (x < 2)%nat -> 0 <= px out y x <= 255) /\
    (exists y x, (y < 2)%nat /\ (x < 2)%nat /\ px out y x = 255).
Proof.
  cbv zeta.
  assert (Hwf : wf (mk_ndarray uint16 2 2 [[0; 100]; [300; 1000]])).
  { split; [reflexivity | repeat constructor]. }
  assert (Hr : in_range (mk_ndarray uint16 2 2 [[0; 100]; [300; 1000]])).
  { unfold in_range. cbn. repeat constructor; cbn; lia. }
  split; [exact Hwf|]. split; [exact Hr|]. split; [reflexivity|].
  destruct (convert_to_8bit_range _ 1000 Hwf Hr eq_refl eq_refl)
    as (out & Hout & _ & _ & Hpx & Hmax).
  exists out. split; [exact Hout|]. split; [|exact Hmax].
  intros y x Hy Hx. apply (Hpx y x Hy Hx).
Defined.

(** ** Mask composition *)

Lemma wf_map (f : Z -> Z) (a : ndarray) (d : dtype) :
  wf a -> wf (mk_ndarray d (nrows a) (ncols a) (map (map f) (data a))).
Proof.
  intros [Hlen Hrows]. split; cbn.
  - rewrite length_map. exact Hlen.
  - apply Forall_forall. intros r Hin. apply in_map_iff in Hin as (r0 & <- & Hin).
    rewrite length_map. rewrite Forall_forall in Hrows. apply Hrows. exact Hin.
Qed.

Lemma wf_tabulate (d : dtype) (h w : nat) (f : nat -> nat -> Z) :
  wf (mk_ndarray d h w (tabulate h (fun y => tabulate w (f y)))).
Proof.
  unfold wf, tabulate. cbn. split.
  - rewrite length_map, length_seq. reflexivity.
  - apply Forall_forall. intros r Hin. apply in_map_iff in Hin as (y & <- & _).
    rewrite length_map, length_seq. reflexivity.
Qed.

Lemma px_tabulate (d : dtype) (h w : nat) (f : nat -> nat -> Z) (y x : nat) :
  (y < h)%nat -> (x < w)%nat ->
  px (mk_ndarray d h w (tabulate h (fun y => tabulate w (f y)))) y x = f y x.
Proof.
  intros Hy Hx. unfold px. cbn [data].
  rewrite nth_tabulate by exact Hy. apply nth_tabulate. exact Hx.
Qed.

Lemma length_map2 {A B C} (f : A -> B -> C) (l1 : list A) (l2 : list B) :
  length l1 = length l2 -> length (map2 f l1 l2) = length l1.
Proof.
  intros H. unfold map2. rewrite length_map, length_combine. lia.
Qed.

Lemma wf_map2 (f : Z -> Z -> Z) (a b : ndarray) (d : dtype) :
  wf a -> wf b -> shape b = shape a ->
  wf (mk_ndarray d (nrows a) (ncols a) (map2 (map2 f) (data a) (data b))).
Proof.
  intros Ha Hb Hs. injection Hs as Hr Hc. split; cbn.
  - rewrite length_map2; destruct Ha, Hb; lia.
  - apply Forall_forall. intros r Hin.
    apply (In_nth _ _ []) in Hin as (y & Hy & <-).
    rewrite length_map2 in Hy by (destruct Ha, Hb; lia).
    rewrite (nth_map2 _ _ _ _ [] [] []) by (destruct Ha, Hb; lia).
    assert (Hya : (y < nrows a)%nat) by (destruct Ha; lia).
    rewrite length_map2; rewrite !wf_row; lia || assumption.
Qed.

Lemma px_map2 (f : Z -> Z -> Z) (a b : ndarray) (d : dtype) (y x : nat) :
  wf a -> wf b -> shape b = shape a ->
  (y < nrows a)%nat -> (x < ncols a)%nat ->
  px (mk_ndarray d (nrows a) (ncols a) (map2 (map2 f) (data a) (data b))) y x =
  f (px a y x) (px b y x).
Proof.
  intros Ha Hb Hs Hy Hx. injection Hs as Hr Hc.
  unfold px. cbn [data].
  rewrite (nth_map2 _ _ _ _ [] [] []) by (destruct Ha, Hb; lia).
  rewrite (nth_map2 _ _ _ _ 0 0 0); [reflexivity| |];
    rewrite wf_row; lia || assumption.
Qed.

Lemma Qtrunc_div_255 (p : Z) : Qtrunc (inject_Z p / 255)%Q = Z.quot p 255.
Proof.
  unfold Qtrunc, Qdiv, Qinv, Qmult, inject_Z. cbn [Qnum Qden].
  rewrite Z.mul_1_r. reflexivity.
Qed.

Lemma wrap8_mul (a k : Z) : wrap uint8 (wrap uint8 a * k) = wrap uint8 (a * k).
Proof. unfold wrap. cbn [bits]. rewrite Z.mul_mod_idemp_l by lia. reflexivity. Qed.

Lemma wrap8_add (a b : Z) : wrap uint8 (wrap uint8 a + wrap uint8 b) = wrap uint8 (a + b).
Proof. unfold wrap. cbn [bits]. rewrite <- Z.add_mod by lia. reflexivity. Qed.

(** One decoded mask, scaled by its pathology code. *)
Lemma scaled_mask_spec (r : row) (m : ndarray) :
  wf m ->
  let s := np_mul_scalar (mask_px m) (pathology r) in
  wf s /\ dtype_of s = uint8 /\ shape s = shape m /\
  forall y x, (y < nrows m)%nat -> (x < ncols m)%nat ->
    px s y x = wrap uint8 (mask_term r m y x).
Proof.
  intros Hwf. cbv zeta.
  assert (Hwm : wf (mask_px m)) by (apply wf_map; exact Hwf).
  split; [apply (wf_map _ (mask_px m)); exact Hwm|].
  split; [reflexivity|]. split; [reflexivity|].
  intros y x Hy Hx. unfold np_mul_scalar.
  rewrite (px_map _ (mask_px m)) by assumption.
  unfold mask_px at 2. rewrite px_map by assumption.
  cbn [dtype_of mask_px]. unfold cast. rewrite Qtrunc_div_255.
  apply wrap8_mul.
Qed.

Section Compose.
Context {fs : Files}.

Lemma shape_inv (a : ndarray) (h w : nat) :
  shape a = (h, w) -> nrows a = h /\ ncols a = w.
Proof. unfold shape. intros [= -> ->]. split; reflexivity. Qed.

Lemma label_sum_cons (r : row) (rows : list row) (m : ndarray)
    (ms : list ndarray) (y x : nat) :
  label_sum (r :: rows) (m :: ms) y x = mask_term r m y x + label_sum rows ms y x.
Proof. reflexivity. Qed.

Lemma broadcast_same_shape (x : ndarray) :
  np_broadcast_to x (shape x) =
  Ok (mk_ndarray (dtype_of x) (nrows x) (ncols x)
        (tabulate (nrows x) (fun i => tabulate (ncols x) (fun j => px x i j)))).
Proof.
  unfold np_broadcast_to, shape. rewrite !Nat.eqb_refl. reflexivity.
Qed.

Lemma combine_loop_array (h w : nat) :
  forall (rows : list row) (ms : list ndarray) (acc : ndarray)
         (base : nat -> nat -> Z),
    Forall2 (fun r m => pixelData (mask_fname r) = Ok m) rows ms ->
    Forall (fun m => wf m /\ shape m = (h, w)) ms ->
    wf acc -> shape acc = (h, w) -> dtype_of acc = uint8 ->
    (forall y x, (y < h)%nat -> (x < w)%nat -> px acc y x = wrap uint8 (base y x)) ->
    exists lab,
      combine_loop rows (LArr acc) = Ok (LArr lab) /\
      wf lab /\ shape lab = (h, w) /\ dtype_of lab = uint8 /\
      forall y x, (y < h)%nat -> (x < w)%nat ->
        px lab y x = wrap uint8 (base y x + label_sum rows ms y x).
Proof.
  induction rows as [|r rows IH]; intros ms acc base Hdec Hms Hacc Hs Hd Hbase.
  - inversion Hdec; subst. exists acc. split; [reflexivity|].
    split; [exact Hacc|]. split; [exact Hs|]. split; [exact Hd|].
    intros y x Hy Hx. unfold label_sum. cbn. rewrite Z.add_0_r. auto.
  - inversion Hdec as [|? m ? ms' Hm Hdec']; subst.
    inversion Hms as [|? ? [Hwm Hsm] Hms']; subst.
    cbn [combine_loop]. rewrite Hm. cbn [Py.bind].
    destruct (scaled_mask_spec r m Hwm) as (Hws & Hds & Hss & Hpxs).
    set (sm := np_mul_scalar (mask_px m) (pathology r)) in *.
    unfold iadd_labels.
    assert (Hshape : shape acc = shape sm) by congruence.
    rewrite Hshape, broadcast_same_shape. cbn [Py.bind].
    set (b := mk_ndarray (dtype_of sm) (nrows sm) (ncols sm) _).
    assert (Hwb : wf b) by apply wf_tabulate.
    assert (Hsb : shape b = shape acc) by (symmetry; exact Hshape).
    destruct (shape_inv _ _ _ Hs) as [Hr Hc].
    destruct (shape_inv _ _ _ Hsm) as [Hrm Hcm].
    destruct (shape_inv _ _ _ Hss) as [Hrs Hcs].
    destruct (IH ms'
                (mk_ndarray (dtype_of acc) (nrows acc) (ncols acc)
                   (map2 (map2 (fun p q => wrap (dtype_of acc) (p + q)))
                      (data acc) (data b)))
                (fun y x => base y x + mask_term r m y x)
                Hdec' Hms')
      as (lab & Hl & Hwl & Hsl & Hdl & Hpl).
    + apply wf_map2; assumption.
    + exact Hs.
    + exact Hd.
    + intros y x Hy Hx.
      rewrite px_map2 by (assumption || lia).
      unfold b. rewrite px_tabulate by lia.
      rewrite Hbase, Hpxs, Hd by lia. apply wrap8_add.
    + exists lab. split; [exact Hl|]. split; [exact Hwl|].
      split; [exact Hsl|]. split; [exact Hdl|].
      intros y x Hy Hx. rewrite Hpl by assumption.
      rewrite label_sum_cons. apply f_equal. lia.
Qed.

End Compose.

(** C7 as stated fails: the only pixel of the mask file is non-zero (100),
    its row has the code 1, and the combined label is 0, not 1. *)
Lemma combine_masks_drops_faint_pixel :
  let m := mk_ndarray uint8 1 1 [[100]] in
  let self := mk_cbis (4096, 2048) [mk_row "a.dcm" "a_mask.dcm" 1] in
  _combine_masks (fs := files_of [("a_mask.dcm"%string, m)]) self "a.dcm" =
    Ok (LArr (mk_ndarray uint8 1 1 [[0]])) /\
  px m 0 0 <> 0.
Proof.
  cbv zeta. split; [vm_compute; reflexivity | vm_compute; discriminate].
Qed.

(** C7 (amended): for an image with at least one row, whose mask files
    decode to arrays of one shape, [_combine_masks] returns a [uint8] array
    of that shape.  Each mask pixel is divided by 255 and truncated (255
    becomes 1; 0 and every value below 255 become 0), multiplied by the
    pathology code of its row, and the products are summed in [uint8].  For
    mask files that hold only 0 and 255, the label of a pixel is the sum of
    the codes of the masks that cover it. *)
Theorem combine_masks_sums_codes :
  forall (fs : Files) (self : MammoPreprocessorCBISDDSM) (path : string)
         (ms : list ndarray) (h w : nat),
    let rows := filter (fun r => String.eqb (full_img_fname r) path) (df self) in
    rows <> [] ->
    Forall2 (fun r m => pixelData (mask_fname r) = Ok m) rows ms ->
    Forall (fun m => wf m /\ shape m = (h, w)) ms ->
    exists lab,
      _combine_masks self path = Ok (LArr lab) /\
      dtype_of lab = uint8 /\ shape lab = (h, w) /\
      forall y x, (y < h)%nat -> (x < w)%nat ->
        px lab y x = wrap uint8 (label_sum rows ms y x) /\
        (Forall (fun m => px m y x = 0 \/ px m y x = 255) ms ->
         px lab y x =
         wrap uint8 (zsum (map2 (fun r m => if px m y x =? 255 then pathology r else 0)
                             rows ms))).
Proof.
  intros fs self path ms h w rows Hne Hdec Hms.
  unfold _combine_masks. fold rows.
  destruct rows as [|r rest]; [contradiction|].
  inversion Hdec as [|? m ? ms' Hm Hdec']; subst.
  inversion Hms as [|? ? [Hwm Hsm] Hms']; subst.
  cbn [combine_loop]. rewrite Hm. cbn [Py.bind iadd_labels].
  destruct (scaled_mask_spec r m Hwm) as (Hws & Hds & Hss & Hpxs).
  set (sm := np_mul_scalar (mask_px m) (pathology r)) in *.
  destruct (shape_inv _ _ _ Hsm) as [Hrm Hcm].
  destruct (shape_inv _ _ _ Hss) as [Hrs Hcs].
  destruct (combine_loop_array h w rest ms'
              (mk_ndarray (dtype_of sm) (nrows sm) (ncols sm)
                 (map (map (fun p => wrap (dtype_of sm) (0 + p))) (data sm)))
              (fun y x => mask_term r m y x) Hdec' Hms')
    as (lab & Hl & Hwl & Hsl & Hdl & Hpl).
  - apply wf_map. exact Hws.
  - unfold shape. cbn. congruence.
  - exact Hds.
  - intros y x Hy Hx. rewrite px_map by (assumption || lia).
    rewrite Hpxs, Hds by lia. cbn [Z.add].
    unfold wrap. apply Z.mod_mod. cbn. lia.
  - exists lab. split; [exact Hl|]. split; [exact Hdl|]. split; [exact Hsl|].
    intros y x Hy Hx.
    assert (Hsum : px lab y x = wrap uint8 (label_sum (r :: rest) (m :: ms') y x)).
    { rewrite Hpl by assumption. reflexivity. }
    split; [exact Hsum|].
    intros Hbin. rewrite Hsum. f_equal. unfold label_sum. f_equal.
    clear -Hbin Hdec. revert Hbin. generalize (m :: ms'). generalize (r :: rest).
    intros rs. induction rs as [|r0 rs IH]; intros [|m0 ms0] Hbin; try reflexivity.
    inversion Hbin as [|? ? Hp Hrest]; subst.
    unfold map2 in *. cbn [combine map fst snd]. f_equal; [|apply IH; exact Hrest].
    unfold mask_term. destruct Hp as [-> | ->].
    + change (Z.quot 0 255) with 0. change (0 =? 255) with false.
      cbv iota. lia.
    + change (Z.quot 255 255) with 1. change (255 =? 255) with true.
      cbv iota. lia.
Qed.

(** Two overlapping masks with the codes 1 and 2: the shared pixel gets 3. *)
Lemma combine_masks_sums_codes_witness :
  let m1 := mk_ndarray uint8 2 2 [[255; 0]; [255; 0]] in
  let m2 := mk_ndarray uint8 2 2 [[255; 255]; [0; 0]] in
  let fs := files_of [("m1.dcm"%string, m1); ("m2.dcm"%string, m2)] in
  let self := mk_cbis (4096, 2048)
                [mk_row "a.dcm" "m1.dcm" 1; mk_row "b.dcm" "m9.dcm" 1;
                 mk_row "a.dcm" "m2.dcm" 2] in
  exists lab,
    _combine_masks (fs := fs) self "a.dcm" = Ok (LArr lab) /\
    px lab 0 0 = 3 /\ px lab 0 1 = 2 /\ px lab 1 0 = 1 /\ px lab 1 1 = 0.
Proof.
  cbv zeta.
  destruct (combine_masks_sums_codes
              (files_of [("m1.dcm"%string, mk_ndarray uint8 2 2 [[255; 0]; [255; 0]]);
                         ("m2.dcm"%string, mk_ndarray uint8 2 2 [[255; 255]; [0; 0]])])
              (mk_cbis (4096, 2048)
                 [mk_row "a.dcm" "m1.dcm" 1; mk_row "b.dcm" "m9.dcm" 1;
                  mk_row "a.dcm" "m2.dcm" 2])
              "a.dcm"
              [mk_ndarray uint8 2 2 [[255; 0]; [255; 0]];
               mk_ndarray uint8 2 2 [[255; 255]; [0; 0]]]
              2%nat 2%nat)
    as (lab & Hl & _ & _ & Hpx).
  - cbn. discriminate.
  - cbn. repeat constructor.
  - repeat constructor.
  - exists lab. split; [exact Hl|].
    destruct (Hpx 0%nat 0%nat) as [-> _]; [lia | lia |].
    destruct (Hpx 0%nat 1%nat) as [-> _]; [lia | lia |].
    destruct (Hpx 1%nat 0%nat) as [-> _]; [lia | lia |].
    destruct (Hpx 1%nat 1%nat) as [-> _]; [lia | lia |].
    repeat split; reflexivity.
Defined.

(** ** Windowing, LINEAR branch *)

Lemma Qgtb_true (a b : Q) : Qgtb a b = true <-> (b < a)%Q.
Proof.
  unfold Qgtb. rewrite negb_true_iff. split.
  - intros H. apply Qnot_le_lt. intros Hle. apply Qle_bool_iff in Hle. congruence.
  - intros H. destruct (Qle_bool a b) eqn:E; [|reflexivity].
    apply Qle_bool_iff in E. exfalso. exact (Qlt_not_le _ _ H E).
Qed.

Lemma Qgtb_false (a b : Q) : Qgtb a b = false <-> (a <= b)%Q.
Proof.
  unfold Qgtb. rewrite negb_false_iff. apply Qle_bool_iff.
Qed.

Lemma y_range_fits (s : scan) (d : dtype) :
  Z.of_N (BitsStored s) <= bits d -> wrap d (y_range_of s) = y_range_of s.
Proof.
  intros Hb. unfold wrap, y_range_of. apply Z.mod_small.
  assert (0 < 2 ^ Z.of_N (BitsStored s)) by (apply Z.pow_pos_nonneg; lia).
  assert (2 ^ Z.of_N (BitsStored s) <= 2 ^ bits d)
    by (apply Z.pow_le_mono_r; lia).
  lia.
Qed.

(** *** The order of binary64 values *)

Lemma SFcompare_rank (x y : F64.float) :
  SFcompare x y =
  match rank x, rank y with
  | Some a, Some b => Some (lex_compare a b)
  | _, _ => None
  end.
Proof.
  destruct x as [sx|sx| |sx mx ex], y as [sy|sy| |sy my ey];
    try destruct sx; try destruct sy; try reflexivity.
  cbn [SFcompare rank lex_compare]. change (-1 ?= -1) with Eq. cbv iota.
  rewrite Z.compare_opp. rewrite (Z.compare_antisym ex ey).
  destruct (ex ?= ey); reflexivity.
Qed.

Ltac float_order :=
  unfold F64.leb, F64.ltb, F64.eqb, SFleb, SFltb, SFeqb in *;
  rewrite ?SFcompare_rank in *;
  repeat match goal with
  | H : context [rank ?x] |- _ => destruct (rank x) as [[[? ?] ?]|]
  | |- context [rank ?x] => destruct (rank x) as [[[? ?] ?]|]
  end;
  unfold lex_compare in *;
  repeat match goal with
  | H : context [?a ?= ?b] |- _ => destruct (Z.compare_spec a b)
  | |- context [?a ?= ?b] => destruct (Z.compare_spec a b)
  end;
  try discriminate; try reflexivity; try lia.

Lemma leb_not_ltb (p lo hi : F64.float) :
  F64.leb p lo = true -> F64.leb lo hi = true -> F64.ltb hi p = false.
Proof. intros H1 H2. float_order. Qed.

Lemma eqb_leb (p lo : F64.float) : F64.eqb p lo = true -> F64.leb p lo = true.
Proof. intros H. float_order. Qed.

Lemma eqb_not_ltb (p hi : F64.float) : F64.eqb p hi = true -> F64.ltb hi p = false.
Proof. intros H. float_order. Qed.

Lemma eqb_not_leb (p lo hi : F64.float) :
  F64.eqb p hi = true -> F64.ltb lo hi = true -> F64.leb p lo = false.
Proof. intros H1 H2. float_order. Qed.



(* ================================================================== *)
(** * Further properties of the transform library *)

(** ** Side correction: the orientation after the call *)

Lemma zsum_app (a b : list Z) : zsum (a ++ b) = zsum a + zsum b.
Proof.
  induction a as [|x a IH]; cbn [app]; [reflexivity|].
  rewrite !zsum_cons, IH. lia.
Qed.

Lemma zsum_rev (l : list Z) : zsum (rev l) = zsum l.
Proof.
  induction l as [|x l IH]; cbn [rev]; [reflexivity|].
  rewrite zsum_app, IH, !zsum_cons. cbn. lia.
Qed.

Lemma zsum_nonneg (l : list Z) : Forall (fun p => 0 <= p) l -> 0 <= zsum l.
Proof.
  induction 1 as [|x l Hx _ IH]; [cbn; lia | rewrite zsum_cons; lia].
Qed.

Lemma zsum_firstn_skipn (k : nat) (l : list Z) :
  zsum (firstn k l) + zsum (skipn k l) = zsum l.
Proof. rewrite <- zsum_app, firstn_skipn. reflexivity. Qed.

Lemma in_firstn {A} (k : nat) (l : list A) (x : A) : In x (firstn k l) -> In x l.
Proof. intros H. rewrite <- (firstn_skipn k l). apply in_or_app. left. exact H. Qed.

Lemma in_skipn {A} (k : nat) (l : list A) (x : A) : In x (skipn k l) -> In x l.
Proof. intros H. rewrite <- (firstn_skipn k l). apply in_or_app. right. exact H. Qed.

Lemma zsum_skipn_mono (a b : nat) (l : list Z) :
  Forall (fun p => 0 <= p) l -> (a <= b)%nat -> zsum (skipn b l) <= zsum (skipn a l).
Proof.
  intros Hl Hab. replace b with ((b - a) + a)%nat by lia.
  rewrite <- skipn_skipn.
  pose proof (zsum_firstn_skipn (b - a) (skipn a l)) as H.
  assert (0 <= zsum (firstn (b - a) (skipn a l))).
  { apply zsum_nonneg. apply Forall_forall. intros x Hx.
    rewrite Forall_forall in Hl. apply Hl.
    apply (in_skipn a). apply (in_firstn (b - a)). exact Hx. }
  lia.
Qed.

Lemma zsum_map_le {A} (f g : A -> Z) (l : list A) :
  (forall x, In x l -> f x <= g x) -> zsum (map f l) <= zsum (map g l).
Proof.
  induction l as [|x l IH]; intros H; cbn [map]; [cbn; lia|].
  rewrite !zsum_cons.
  assert (f x <= g x) by (apply H; left; reflexivity).
  assert (zsum (map f l) <= zsum (map g l)) by (apply IH; intros; apply H; right; assumption).
  lia.
Qed.

Lemma zsum_map_eq {A} (f g : A -> Z) (l : list A) :
  (forall x, In x l -> f x = g x) -> zsum (map f l) = zsum (map g l).
Proof. intros H. f_equal. apply map_ext_in. exact H. Qed.

Lemma half_split_ge (img : ndarray) : (ncols img - half_split img <= half_split img)%nat.
Proof.
  unfold half_split. pose proof (Nat.div_mod_eq (ncols img) 2).
  pose proof (Nat.mod_upper_bound (ncols img) 2). lia.
Qed.

Lemma firstn_rev_sum (k : nat) (r : list Z) :
  zsum (firstn k (rev r)) = zsum (skipn (length r - k) r).
Proof. rewrite firstn_rev, zsum_rev. reflexivity. Qed.

Lemma skipn_rev_sum (k : nat) (r : list Z) :
  zsum (skipn k (rev r)) = zsum (firstn (length r - k) r).
Proof. rewrite skipn_rev, zsum_rev. reflexivity. Qed.

Lemma wf_fliplr (img : ndarray) : wf img -> wf (np_fliplr img).
Proof.
  intros [Hlen Hrows]. split; cbn.
  - rewrite length_map. exact Hlen.
  - apply Forall_forall. intros r Hin. apply in_map_iff in Hin as (r0 & <- & Hin).
    rewrite length_rev. rewrite Forall_forall in Hrows. apply Hrows. exact Hin.
Qed.

Lemma fliplr_involutive (img : ndarray) : np_fliplr (np_fliplr img) = img.
Proof.
  destruct img as [d h w rows]. unfold np_fliplr. cbn. f_equal.
  rewrite map_map. rewrite <- (map_id rows) at 2. apply map_ext.
  intros r. apply rev_involutive.
Qed.

(** The half sums of the mirrored image are the sums of the outer columns
    of the other side. *)
Lemma fliplr_half_sums (img : ndarray) :
  wf img ->
  left_half_sum (np_fliplr img) =
    zsum (map (fun r => zsum (skipn (ncols img - half_split img) r)) (data img)) /\
  right_half_sum (np_fliplr img) =
    zsum (map (fun r => zsum (firstn (ncols img - half_split img) r)) (data img)).
Proof.
  intros [Hlen Hrows]. rewrite Forall_forall in Hrows.
  pose proof (half_split_le img) as Hk.
  unfold left_half_sum, right_half_sum, half_split in *. cbn [np_fliplr data ncols].
  rewrite !map_map. split; apply zsum_map_eq; intros r Hin;
    specialize (Hrows r Hin).
  - rewrite firstn_rev_sum. rewrite Hrows. reflexivity.
  - rewrite skipn_rev_sum. rewrite Hrows. reflexivity.
Qed.

Lemma in_range_nonneg_row (img : ndarray) (r : list Z) :
  in_range img -> In r (data img) -> Forall (fun p => 0 <= p) r.
Proof.
  unfold in_range. rewrite Forall_forall. intros H Hin.
  specialize (H r Hin). eapply Forall_impl; [|exact H]. cbn. intros; lia.
Qed.

Lemma half_sums_fliplr_bounds (img : ndarray) :
  wf img -> in_range img ->
  right_half_sum img <= left_half_sum (np_fliplr img) /\
  right_half_sum (np_fliplr img) <= left_half_sum img /\
  left_half_sum (np_fliplr img) + right_half_sum (np_fliplr img) =
    left_half_sum img + right_half_sum img /\
  0 <= left_half_sum img /\ 0 <= right_half_sum img /\
  0 <= left_half_sum (np_fliplr img) /\ 0 <= right_half_sum (np_fliplr img).
Proof.
  intros Hwf Hr. destruct (fliplr_half_sums img Hwf) as [-> ->].
  pose proof (half_split_le img) as Hk. pose proof (half_split_ge img) as Hk'.
  destruct Hwf as [Hlen Hrows]. rewrite Forall_forall in Hrows.
  unfold left_half_sum, right_half_sum.
  assert (Hpos : forall r, In r (data img) -> Forall (fun p => 0 <= p) r)
    by (intros; eapply in_range_nonneg_row; eassumption).
  assert (Hsum : forall k,
             zsum (map (fun r => zsum (firstn k r)) (data img)) +
             zsum (map (fun r => zsum (skipn k r)) (data img)) =
             zsum (map zsum (data img))).
  { intros k. rewrite <- zsum_map_add. apply zsum_map_eq.
    intros r _. apply zsum_firstn_skipn. }
  assert (Hnn : forall (f : list Z -> list Z),
             (forall r x, In x (f r) -> In x r) ->
             0 <= zsum (map (fun r => zsum (f r)) (data img))).
  { intros f Hf. apply zsum_nonneg. apply Forall_forall. intros v Hv.
    apply in_map_iff in Hv as (r & <- & Hin). apply zsum_nonneg.
    apply Forall_forall. intros x Hx. specialize (Hpos r Hin).
    rewrite Forall_forall in Hpos. apply Hpos. eapply Hf. exact Hx. }
  assert (H1 : zsum (map (fun r => zsum (skipn (half_split img) r)) (data img)) <=
               zsum (map (fun r => zsum (skipn (ncols img - half_split img) r)) (data img))).
  { apply zsum_map_le. intros r Hin. apply zsum_skipn_mono; [auto | exact Hk']. }
  pose proof (Hsum (half_split img)) as Ha.
  pose proof (Hsum (ncols img - half_split img)%nat) as Hb.
  pose proof (Hnn (firstn (half_split img)) (fun r x => in_firstn _ r x)) as P1.
  pose proof (Hnn (skipn (half_split img)) (fun r x => in_skipn _ r x)) as P2.
  pose proof (Hnn (firstn (ncols img - half_split img)) (fun r x => in_firstn _ r x)) as P3.
  pose proof (Hnn (skipn (ncols img - half_split img)) (fun r x => in_skipn _ r x)) as P4.
  repeat split; lia.
Qed.

Lemma wrap64_small (z : Z) : 0 <= z < 2 ^ 64 -> wrap64 z = z.
Proof. intros H. unfold wrap64. apply Z.mod_small. exact H. Qed.

Lemma correct_side_exact (img : ndarray) (mask : option labels) :
  wf img -> in_range img ->
  left_half_sum img + right_half_sum img < 2 ^ 64 ->
  _correct_side img mask =
  if left_half_sum img >? right_half_sum img then Ok (img, mask)
  else match mask with
       | None => Ok (np_fliplr img, None)
       | Some m => m' <- fliplr_labels m ;; Ok (np_fliplr img, Some m')
       end.
Proof.
  intros Hwf Hr Hsum.
  destruct (split_sums_spec img Hwf) as [HL HR].
  destruct (half_sums_fliplr_bounds img Hwf Hr) as (_ & _ & _ & H0 & H1 & _).
  rewrite wrap64_small in HL by lia. rewrite wrap64_small in HR by lia.
  unfold left_col_sum, right_col_sum in HL, HR.
  unfold _correct_side. cbv zeta. rewrite HL, HR. reflexivity.
Qed.

(** After [_correct_side] the left half of the image is never lighter than
    the right half (for non-negative pixels whose sums fit 64 bits). *)
Theorem correct_side_left_not_lighter :
  forall (img out : ndarray) (mask l : option labels),
    wf img -> in_range img ->
    left_half_sum img + right_half_sum img < 2 ^ 64 ->
    _correct_side img mask = Ok (out, l) ->
    wf out /\ shape out = shape img /\
    right_half_sum out <= left_half_sum out.
Proof.
  intros img out mask l Hwf Hr Hsum.
  rewrite correct_side_exact by assumption.
  destruct (half_sums_fliplr_bounds img Hwf Hr) as (Ha & Hb & _).
  destruct (Z.gtb_spec (left_half_sum img) (right_half_sum img)) as [Hgt | Hle].
  - intros [= <- <-]. split; [exact Hwf|]. split; [reflexivity | lia].
  - assert (Hflip : wf (np_fliplr img) /\ shape (np_fliplr img) = shape img /\
                    right_half_sum (np_fliplr img) <= left_half_sum (np_fliplr img)).
    { split; [apply wf_fliplr; exact Hwf|]. split; [reflexivity | lia]. }
    destruct mask as [m|].
    + destruct (fliplr_labels m); cbn [Py.bind]; [|discriminate].
      intros [= <- <-]. exact Hflip.
    + intros [= <- <-]. exact Hflip.
Qed.

(** The theorem on a 2x3 image whose right half is heavier. *)
Lemma correct_side_left_not_lighter_witness :
  let img := mk_ndarray uint16 2 3 [[1; 2; 9]; [0; 1; 7]] in
  exists out,
    _correct_side img None = Ok (out, None) /\
    right_half_sum out <= left_half_sum out.
Proof.
  cbv zeta. eexists. split; [reflexivity|].
  refine (proj2 (proj2 (correct_side_left_not_lighter
            (mk_ndarray uint16 2 3 [[1; 2; 9]; [0; 1; 7]]) _ None None _ _ _ eq_refl))).
  - split; [reflexivity | repeat constructor].
  - unfold in_range. cbn. repeat constructor; cbn; lia.
  - vm_compute. reflexivity.
Defined.

Lemma in_range_fliplr (img : ndarray) : in_range img -> in_range (np_fliplr img).
Proof.
  unfold in_range. cbn. intros H. apply Forall_forall. intros r Hin.
  apply in_map_iff in Hin as (r0 & <- & Hin). rewrite Forall_forall in H.
  specialize (H r0 Hin). apply Forall_forall. intros x Hx.
  rewrite Forall_forall in H. apply H. apply in_rev. exact Hx.
Qed.

(** A second [_correct_side] leaves the corrected image (and mask) as it is,
    except when the two half sums of the corrected image are equal: then it
    mirrors again, and an input that was mirrored comes back unchanged. *)
Theorem correct_side_twice :
  forall (img out : ndarray) (mask mask' : option ndarray),
    wf img -> in_range img ->
    left_half_sum img + right_half_sum img < 2 ^ 64 ->
    _correct_side img (option_map LArr mask) = Ok (out, option_map LArr mask') ->
    _correct_side out (option_map LArr mask') = Ok (out, option_map LArr mask') \/
    (left_half_sum out = right_half_sum out /\
     _correct_side out (option_map LArr mask') =
       Ok (np_fliplr out, option_map LArr (option_map np_fliplr mask')) /\
     (out <> img -> np_fliplr out = img /\ option_map np_fliplr mask' = mask)).
Proof.
  intros img out mask mask' Hwf Hr Hsum H1.
  destruct (half_sums_fliplr_bounds img Hwf Hr) as (Ha & Hb & Hc & H0 & H0' & Hd & He).
  rewrite correct_side_exact in H1 by assumption.
  assert (Hopt : forall a b : option ndarray,
             option_map LArr a = option_map LArr b -> a = b).
  { intros [a|] [b|]; cbn; congruence. }
  destruct (Z.gtb_spec (left_half_sum img) (right_half_sum img)) as [Hgt | Hle].
  - injection H1 as <- Hm. apply Hopt in Hm. subst mask'.
    left. rewrite correct_side_exact by assumption.
    destruct (Z.gtb_spec (left_half_sum img) (right_half_sum img)); [reflexivity | lia].
  - assert (H1' : out = np_fliplr img /\ mask' = option_map np_fliplr mask).
    { destruct mask as [m|]; cbn in H1; injection H1 as <- Hm;
        (split; [reflexivity|]); apply Hopt; rewrite <- Hm; reflexivity. }
    destruct H1' as [-> ->].
    rewrite correct_side_exact;
      [|apply wf_fliplr; exact Hwf | apply in_range_fliplr; exact Hr | lia].
    destruct (Z.gtb_spec (left_half_sum (np_fliplr img)) (right_half_sum (np_fliplr img)))
      as [Hgt' | Hle']; [left; reflexivity|].
    right. split; [lia|]. split.
    + destruct mask as [m|]; reflexivity.
    + intros _. split; [apply fliplr_involutive|].
      destruct mask as [m|]; cbn; [rewrite fliplr_involutive|]; reflexivity.
Qed.

(** The theorem on a tie: the image [[1 2 3 0]] is mirrored at every call. *)
Lemma correct_side_twice_witness :
  let img := mk_ndarray uint16 1 4 [[1; 2; 3; 0]] in
  let out := mk_ndarray uint16 1 4 [[0; 3; 2; 1]] in
  _correct_side img None = Ok (out, None) /\
  left_half_sum out = right_half_sum out /\
  _correct_side out None = Ok (img, None).
Proof.
  cbv zeta. split; [reflexivity|].
  destruct (correct_side_twice (mk_ndarray uint16 1 4 [[1; 2; 3; 0]])
              (mk_ndarray uint16 1 4 [[0; 3; 2; 1]]) None None)
    as [H | (Heq & Hrun & _)].
  - split; [reflexivity | repeat constructor].
  - unfold in_range. cbn. repeat constructor; cbn; lia.
  - vm_compute. reflexivity.
  - reflexivity.
  - vm_compute in H. discriminate.
  - split; [exact Heq | exact Hrun].
Defined.

(** ** Binary64 facts for the aspect-ratio computation *)

Module F64Facts.

Lemma digits2_iter_xO (p k : positive) :
  digits2_pos (Pos.iter xO p k) = (digits2_pos p + k)%positive.
Proof.
  induction k as [|k IH] using Pos.peano_ind.
  - cbn. lia.
  - rewrite Pos.iter_succ. cbn [digits2_pos]. rewrite IH. lia.
Qed.

Lemma iter_xO_value (p k : positive) :
  Z.pos (Pos.iter xO p k) = Z.pos p * 2 ^ Z.pos k.
Proof.
  induction k as [|k IH] using Pos.peano_ind.
  - cbn. lia.
  - rewrite Pos.iter_succ, Pos2Z.inj_xO, IH, Pos2Z.inj_succ, Z.pow_succ_r by lia. lia.
Qed.

Lemma digits2_lower (p : positive) :
  2 ^ (Z.pos (digits2_pos p) - 1) <= Z.pos p.
Proof.
  induction p as [p IH|p IH|]; cbn [digits2_pos].
  - rewrite Pos2Z.inj_succ.
    replace (Z.succ (Z.pos (digits2_pos p)) - 1)
      with (Z.succ (Z.pos (digits2_pos p) - 1)) by lia.
    rewrite Z.pow_succ_r by lia. lia.
  - rewrite Pos2Z.inj_succ.
    replace (Z.succ (Z.pos (digits2_pos p)) - 1)
      with (Z.succ (Z.pos (digits2_pos p) - 1)) by lia.
    rewrite Z.pow_succ_r by lia. lia.
  - cbn. lia.
Qed.

(** A 53-bit mantissa with an exponent in range is not rounded. *)
Lemma binary_round_aux_exact (s : bool) (m : positive) (e : Z) :
  Z.pos (digits2_pos m) = 53 -> -1074 <= e <= 971 ->
  binary_round_aux 53 1024 s (Z.pos m) e loc_Exact = S754_finite s m e.
Proof.
  intros Hd He.
  assert (Hf : fexp 53 1024 (Zdigits2 (Z.pos m) + e) - e = 0).
  { cbn [Zdigits2]. rewrite Hd. unfold fexp, emin. lia. }
  unfold binary_round_aux, shr_fexp. rewrite Hf.
  cbn [shr shr_record_of_loc shr_m loc_of_shr_record round_nearest_even].
  rewrite Hf. cbn [shr shr_record_of_loc shr_m].
  destruct (Z.leb_spec e (1024 - 53)); [reflexivity | lia].
Qed.

(** [float(z)] of a positive int below 2^53 is the normal float of the same
    value. *)
Lemma of_Z_normal (p : positive) :
  Z.pos p < 2 ^ 53 ->
  exists m e, F64.of_Z (Z.pos p) = S754_finite false m e /\
              Z.pos (digits2_pos m) = 53 /\ -52 <= e <= 0 /\
              Z.pos m = Z.pos p * 2 ^ (- e).
Proof.
  intros Hp.
  pose proof (digits2_lower p) as Hd.
  assert (Hd53 : Z.pos (digits2_pos p) <= 53).
  { destruct (Z.le_gt_cases (Z.pos (digits2_pos p)) 53) as [H|H]; [exact H|].
    assert (2 ^ 53 <= 2 ^ (Z.pos (digits2_pos p) - 1))
      by (apply Z.pow_le_mono_r; lia).
    lia. }
  unfold F64.of_Z, F64.prec, F64.emax, binary_normalize, binary_round.
  assert (Hf : fexp 53 1024 (Z.pos (digits2_pos p) + 0) = Z.pos (digits2_pos p) - 53).
  { unfold fexp, emin. lia. }
  rewrite Hf. unfold shl_align.
  destruct (Z.pos (digits2_pos p) - 53 - 0) as [|q|q] eqn:Hq.
  - rewrite binary_round_aux_exact by lia. exists p, 0.
    repeat split; try lia.
  - lia.
  - replace (Z.pos (digits2_pos p) - 53) with (Z.neg q) by lia.
    rewrite binary_round_aux_exact; [| rewrite digits2_iter_xO; lia | lia].
    exists (Pos.iter xO p q), (Z.neg q).
    split; [reflexivity|]. split; [rewrite digits2_iter_xO; lia|].
    split; [lia|]. rewrite iter_xO_value. reflexivity.
Qed.

Lemma div_eucl_pair (a b : Z) : Z.div_eucl a b = (a / b, a mod b).
Proof. unfold Z.div, Z.modulo. destruct (Z.div_eucl a b); reflexivity. Qed.

(** [x / x] is 1.0 for every finite non-zero [x]. *)
Lemma div_same (s : bool) (m : positive) (e : Z) :
  F64.div (S754_finite s m e) (S754_finite s m e) =
  S754_finite false 4503599627370496 (-52).
Proof.
  unfold F64.div, F64.prec, F64.emax, SFdiv, SFdiv_core_binary.
  replace (Zdigits2 (Z.pos m) + e - (Zdigits2 (Z.pos m) + e)) with 0 by lia.
  replace (e - e) with 0 by lia.
  change (Z.min (fexp 53 1024 0) 0) with (-53).
  change (0 - -53) with 53.
  cbv iota beta.
  assert (Hdiv : Z.div_eucl (Z.shiftl (Z.pos m) 53) (Z.pos m) = (2 ^ 53, 0)).
  { rewrite Z.shiftl_mul_pow2, div_eucl_pair by lia.
    rewrite (Z.mul_comm (Z.pos m)), Z.div_mul, Z.mod_mul by lia. reflexivity. }
  rewrite Hdiv.
  assert (Hloc : new_location (Z.pos m) 0 = loc_Exact).
  { unfold new_location. destruct (Z.even (Z.pos m)); reflexivity. }
  rewrite Hloc.
  destruct s; vm_compute; reflexivity.
Qed.

(** [x / 1.0] is [x] for a normal [x] of integer range. *)
Lemma div_one (m : positive) (e : Z) :
  Z.pos (digits2_pos m) = 53 -> -52 <= e <= 0 ->
  F64.div (S754_finite false m e) (S754_finite false 4503599627370496 (-52)) =
  S754_finite false m e.
Proof.
  intros Hd He. unfold F64.div, F64.prec, F64.emax, SFdiv, SFdiv_core_binary.
  cbn [Zdigits2]. rewrite Hd.
  change (Z.pos (digits2_pos 4503599627370496)) with 53.
  assert (Hf : Z.min (fexp 53 1024 (53 + e - (53 + -52))) (e - -52) = e - 1).
  { unfold fexp, emin. lia. }
  rewrite Hf. replace (e - -52 - (e - 1)) with 53 by lia. cbv iota beta.
  assert (Hdiv : Z.div_eucl (Z.shiftl (Z.pos m) 53) 4503599627370496
                 = (Z.pos m~0, 0)).
  { rewrite Z.shiftl_mul_pow2, div_eucl_pair by lia.
    change (2 ^ 53) with (2 * 4503599627370496).
    rewrite Z.mul_assoc, Z.div_mul, Z.mod_mul by lia. f_equal. lia. }
  rewrite Hdiv. cbn [xorb].
  change (new_location 4503599627370496 0) with loc_Exact.
  unfold binary_round_aux, shr_fexp. cbn [Zdigits2 digits2_pos].
  rewrite Pos2Z.inj_succ, Hd.
  assert (Hf2 : fexp 53 1024 (Z.succ 53 + (e - 1)) - (e - 1) = 1).
  { unfold fexp, emin. lia. }
  rewrite Hf2.
  cbn [shr shr_record_of_loc iter_pos shr_1 shr_m shr_r shr_s orb
       loc_of_shr_record round_nearest_even].
  cbn [Zdigits2]. rewrite Hd.
  replace (e - 1 + 1) with e by lia.
  assert (Hf3 : fexp 53 1024 (53 + e) - e = 0).
  { unfold fexp, emin. lia. }
  rewrite Hf3. cbn [shr shr_record_of_loc shr_m].
  destruct (Z.leb_spec e (1024 - 53)); [reflexivity | lia].
Qed.

(** [int(float(z))] is [z]. *)
Lemma to_int_of_Z (p : positive) :
  Z.pos p < 2 ^ 53 -> F64.to_int (F64.of_Z (Z.pos p)) = Ok (Z.pos p).
Proof.
  intros Hp. destruct (of_Z_normal p Hp) as (m & e & -> & _ & He & Hm).
  cbn [F64.to_int cond_Zopp]. f_equal.
  rewrite Z.shiftl_div_pow2 by lia. rewrite Hm. apply Z.div_mul.
  apply Z.pow_nonzero; lia.
Qed.

End F64Facts.

(** ** Resizing: empty and square images *)

(** On an empty image (no rows or no columns, fewer than 2^53 columns)
    [_resize_to_height] raises [ZeroDivisionError], whatever the target
    size and the mask: from [h / w] without columns, and from
    [size[0] / 0.0] without rows. *)
Theorem resize_to_height_empty :
  forall (cv : OpenCV) (img : ndarray) (size : Z * Z) (mask : option labels),
    is_empty img = true ->
    Z.of_nat (ncols img) < 2 ^ 53 ->
    _resize_to_height img size mask = Raise ZeroDivisionError.
Proof.
  intros cv img size mask He Hw. unfold _resize_to_height, new_size, F64.truediv_int.
  destruct (Z.eqb_spec (Z.of_nat (ncols img)) 0) as [Hz | Hnz]; [reflexivity|].
  unfold is_empty in He.
  destruct (Nat.eqb_spec (nrows img) 0) as [Hr | Hr];
    [|destruct (Nat.eqb_spec (ncols img) 0); [lia | discriminate]].
  rewrite Hr.
  destruct (Z.of_nat (ncols img)) as [|p|p] eqn:Hp; try lia.
  destruct (F64Facts.of_Z_normal p Hw) as (m & e & -> & _).
  reflexivity.
Qed.

(** A 0x3 image. *)
Lemma resize_to_height_empty_witness :
  _resize_to_height (cv := ref_cv) (mk_ndarray uint16 0 3 []) (4096, 2048) None =
  Raise ZeroDivisionError.
Proof.
  apply (resize_to_height_empty ref_cv (mk_ndarray uint16 0 3 []) (4096, 2048) None).
  - reflexivity.
  - reflexivity.
Defined.

Lemma new_size_square (h : nat) (size : Z * Z) :
  (0 < h)%nat -> Z.of_nat h < 2 ^ 53 -> 0 < fst size < 2 ^ 53 ->
  new_size h h size = Ok (fst size, fst size).
Proof.
  intros Hh Hb HH. unfold new_size, F64.truediv_int.
  destruct (Z.eqb_spec (Z.of_nat h) 0) as [?|_]; [lia|].
  destruct (Z.of_nat h) as [|p|p] eqn:Hp; try lia.
  destruct (F64Facts.of_Z_normal p Hb) as (m & e & -> & _).
  rewrite F64Facts.div_same. cbn [Py.bind].
  unfold F64.truediv_int_float. cbn [F64.is_zero].
  destruct (fst size) as [|q|q] eqn:Hq; try lia.
  destruct (F64Facts.of_Z_normal q (proj2 HH)) as (mq & eq & Hof & Hd & He & Hm).
  pose proof (F64Facts.to_int_of_Z q (proj2 HH)) as Hint.
  rewrite Hof in *. rewrite F64Facts.div_one by assumption. cbn [Py.bind].
  rewrite Hint. reflexivity.
Qed.

(** A square image keeps its aspect ratio exactly: for a side and a target
    height below 2^53, [_resize_to_height] returns a square image (and
    mask) of the target height; the two binary64 divisions are exact. *)
Theorem resize_to_height_square :
  forall (cv : OpenCV) (img : ndarray) (size : Z * Z) (mask : option ndarray),
    nrows img = ncols img -> (0 < nrows img)%nat ->
    Z.of_nat (nrows img) < 2 ^ 53 -> 0 < fst size < 2 ^ 53 ->
    (forall m, mask = Some m -> shape m = shape img) ->
    exists img' mask',
      _resize_to_height img size (option_map LArr mask) =
        Ok (img', option_map LArr mask') /\
      shape img' = (Z.to_nat (fst size), Z.to_nat (fst size)) /\
      (forall m', mask' = Some m' -> shape m' = shape img').
Proof.
  intros cv img size mask Hsq Hpos Hb HH Hm.
  assert (He : is_empty img = false).
  { unfold is_empty. rewrite <- Hsq.
    destruct (Nat.eqb_spec (nrows img) 0); [lia | reflexivity]. }
  unfold _resize_to_height. rewrite <- Hsq.
  rewrite (new_size_square _ size Hpos Hb HH). cbn [Py.bind].
  rewrite (cv2_resize_ok img _ _ INTER_LINEAR He (proj1 HH) (proj1 HH)). cbn [Py.bind].
  destruct mask as [m|]; cbn [option_map resize_labels Py.bind].
  - assert (Hem : is_empty m = false).
    { rewrite (is_empty_shape m img); [exact He | apply Hm; reflexivity]. }
    rewrite (cv2_resize_ok m _ _ INTER_NEAREST Hem (proj1 HH) (proj1 HH)).
    cbn [Py.bind]. eexists. eexists (Some _). split; [reflexivity|].
    split; [reflexivity|]. intros m' [= <-]. reflexivity.
  - eexists. exists None. split; [reflexivity|].
    split; [reflexivity | discriminate].
Qed.

(** A 2x2 image and the target height 5. *)
Lemma resize_to_height_square_witness :
  exists img',
    _resize_to_height (cv := ref_cv) (mk_ndarray uint16 2 2 [[1; 2]; [3; 4]])
      (5, 9) None = Ok (img', None) /\
    shape img' = (5%nat, 5%nat).
Proof.
  destruct (resize_to_height_square ref_cv (mk_ndarray uint16 2 2 [[1; 2]; [3; 4]])
              (5, 9) None eq_refl)
    as (img' & mask' & Hr & Hs & _).
  - cbn. lia.
  - reflexivity.
  - split; reflexivity.
  - discriminate.
  - destruct mask' as [m|]; cbn in Hr.
    + exfalso. revert Hr. vm_compute. discriminate.
    + exists img'. split; assumption.
Defined.

(** ** Cropping: the box and its pixels *)

Lemma fold_left_min_spec (l : list Z) (x : Z) :
  let m := fold_left Z.min l x in
  (m = x \/ In m l) /\ m <= x /\ Forall (fun y => m <= y) l.
Proof.
  revert x. induction l as [|a l IH]; intros x; cbn.
  - split; [left; reflexivity|]. split; [lia | constructor].
  - specialize (IH (Z.min x a)). cbv zeta in IH.
    set (m := fold_left Z.min l (Z.min x a)) in *.
    destruct IH as ([Hm | Hm] & Hle & Hall).
    + split; [|split; [lia|constructor; [lia | exact Hall]]].
      destruct (Z.min_spec x a) as [[_ E] | [_ E]];
        [left; congruence | right; left; congruence].
    + split; [auto|]. split; [lia|constructor; [lia | exact Hall]].
Qed.

Lemma np_min_list_spec (l : list Z) :
  l <> [] ->
  exists m, np_min_list l = Ok m /\ In m l /\ Forall (fun y => m <= y) l.
Proof.
  destruct l as [|x t]; [contradiction|]. intros _. cbn.
  eexists. split; [reflexivity|].
  destruct (fold_left_min_spec t x) as ([H | H] & Hle & Hall).
  - split; [left; symmetry; exact H | constructor; assumption].
  - split; [right; exact H | constructor; assumption].
Qed.

Lemma np_max_list_spec (l : list Z) :
  l <> [] ->
  exists m, np_max_list l = Ok m /\ In m l /\ Forall (fun y => y <= m) l.
Proof.
  destruct l as [|x t]; [contradiction|]. intros _. cbn.
  eexists. split; [reflexivity|].
  destruct (fold_left_max_spec t x) as ([H | H] & Hle & Hall).
  - split; [left; symmetry; exact H | constructor; assumption].
  - split; [right; exact H | constructor; assumption].
Qed.

Lemma slice_bound_nonneg (i : Z) (len : nat) :
  0 <= i <= Z.of_nat len -> slice_bound i len = Z.to_nat i.
Proof.
  intros H. unfold slice_bound. destruct (Z.ltb_spec i 0); lia.
Qed.

(** The pixels of [a[y1:y2, x1:x2]] for bounds inside of the array. *)
Lemma px_np_slice2 (a : ndarray) (y1 y2 x1 x2 : Z) (i j : nat) :
  wf a ->
  0 <= y1 <= y2 -> y2 <= Z.of_nat (nrows a) ->
  0 <= x1 <= x2 -> x2 <= Z.of_nat (ncols a) ->
  (i < Z.to_nat (y2 - y1))%nat -> (j < Z.to_nat (x2 - x1))%nat ->
  px (np_slice2 a y1 y2 x1 x2) i j = px a (Z.to_nat y1 + i) (Z.to_nat x1 + j).
Proof.
  intros Hwf Hy Hy2 Hx Hx2 Hi Hj.
  pose proof Hwf as [Hlen Hrows].
  unfold px, np_slice2, py_slice, slice_len. cbn [data].
  rewrite Hlen.
  rewrite !slice_bound_nonneg by lia.
  set (g := fun r : list Z =>
              firstn (Z.to_nat x2 - Z.to_nat x1) (skipn (Z.to_nat x1) r)).
  assert (Hg : g [] = []) by (unfold g; rewrite skipn_nil, firstn_nil; reflexivity).
  rewrite <- Hg at 1. rewrite map_nth.
  rewrite nth_firstn, nth_skipn.
  destruct (Nat.ltb_spec i (Z.to_nat y2 - Z.to_nat y1)) as [_|?]; [|lia].
  unfold g. rewrite nth_firstn, nth_skipn.
  destruct (Nat.ltb_spec j (Z.to_nat x2 - Z.to_nat x1)) as [_|?]; [|lia].
  reflexivity.
Qed.

Lemma np_slice2_shape_inside (a : ndarray) (y1 y2 x1 x2 : Z) :
  0 <= y1 <= y2 -> y2 <= Z.of_nat (nrows a) ->
  0 <= x1 <= x2 -> x2 <= Z.of_nat (ncols a) ->
  shape (np_slice2 a y1 y2 x1 x2) = (Z.to_nat (y2 - y1), Z.to_nat (x2 - x1)).
Proof.
  intros Hy Hy2 Hx Hx2. unfold shape, np_slice2, slice_len. cbn [nrows ncols].
  rewrite !slice_bound_nonneg by lia. f_equal; lia.
Qed.

(** [_crop_roi] cuts the half-open box between the extreme coordinates of
    the largest contour: for a non-empty contour inside of the image the
    result has [y2 - y1] rows and [x2 - x1] columns and holds the pixels of
    the image from [(y1, x1)] on, so the row [y2] and the column [x2] of the
    contour are left out, and a contour within one row or one column gives
    an empty image without an error. *)
Theorem crop_roi_box :
  forall (cv : OpenCV) (img b : ndarray) (c : contour),
    wf img ->
    _binarize img = Ok b -> _find_contours b = Ok c ->
    c <> [] ->
    Forall (fun q => 0 <= fst q < Z.of_nat (ncols img) /\
                     0 <= snd q < Z.of_nat (nrows img)) c ->
    exists x1 x2 y1 y2 out,
      np_min_list (map fst c) = Ok x1 /\ np_max_list (map fst c) = Ok x2 /\
      np_min_list (map snd c) = Ok y1 /\ np_max_list (map snd c) = Ok y2 /\
      _crop_roi img None = Ok (out, None) /\
      shape out = (Z.to_nat (y2 - y1), Z.to_nat (x2 - x1)) /\
      (forall i j, (i < Z.to_nat (y2 - y1))%nat -> (j < Z.to_nat (x2 - x1))%nat ->
         px out i j = px img (Z.to_nat y1 + i) (Z.to_nat x1 + j)) /\
      (x1 = x2 \/ y1 = y2 -> is_empty out = true).
Proof.
  intros cv img b c Hwf Hb Hc Hne Hin.
  assert (Hfst : map fst c <> []) by (destruct c; [contradiction | discriminate]).
  assert (Hsnd : map snd c <> []) by (destruct c; [contradiction | discriminate]).
  destruct (np_min_list_spec _ Hfst) as (x1 & Hx1 & Ix1 & Ax1).
  destruct (np_max_list_spec _ Hfst) as (x2 & Hx2 & Ix2 & Ax2).
  destruct (np_min_list_spec _ Hsnd) as (y1 & Hy1 & Iy1 & Ay1).
  destruct (np_max_list_spec _ Hsnd) as (y2 & Hy2 & Iy2 & Ay2).
  rewrite Forall_forall in Hin, Ax1, Ax2, Ay1, Ay2.
  assert (Bx : forall x, In x (map fst c) -> 0 <= x < Z.of_nat (ncols img)).
  { intros x Hx. apply in_map_iff in Hx as (q & <- & Hq). apply (Hin q Hq). }
  assert (By : forall y, In y (map snd c) -> 0 <= y < Z.of_nat (nrows img)).
  { intros y Hy. apply in_map_iff in Hy as (q & <- & Hq). apply (Hin q Hq). }
  pose proof (Bx _ Ix1). pose proof (Bx _ Ix2).
  pose proof (By _ Iy1). pose proof (By _ Iy2).
  pose proof (Ax1 _ Ix2). pose proof (Ay1 _ Iy2).
  exists x1, x2, y1, y2, (np_slice2 img y1 y2 x1 x2).
  split; [exact Hx1|]. split; [exact Hx2|]. split; [exact Hy1|]. split; [exact Hy2|].
  split.
  { unfold _crop_roi. rewrite Hb. cbn [Py.bind]. rewrite Hc. cbn [Py.bind].
    rewrite Hx1, Hx2, Hy1, Hy2. reflexivity. }
  split; [apply np_slice2_shape_inside; lia|].
  split; [intros i j Hi Hj; apply px_np_slice2; assumption || lia|].
  intros Hthin.
  assert (Hs : shape (np_slice2 img y1 y2 x1 x2) =
               (Z.to_nat (y2 - y1), Z.to_nat (x2 - x1)))
    by (apply np_slice2_shape_inside; lia).
  pose proof (f_equal fst Hs) as Hr. pose proof (f_equal snd Hs) as Hcn.
  cbn [fst snd shape] in Hr, Hcn.
  unfold is_empty. rewrite Hr, Hcn.
  destruct Hthin as [-> | ->]; rewrite Z.sub_diag; cbn;
    [apply orb_true_r | reflexivity].
Qed.

(** A run on a 4x4 image with a bright 2x3 block. *)
Lemma crop_roi_box_witness :
  let img := mk_ndarray uint16 4 4
               [[0; 0; 0; 0]; [0; 100; 300; 200]; [0; 120; 250; 90]; [0; 0; 0; 0]] in
  _crop_roi (cv := ref_cv) img None =
    Ok (mk_ndarray uint16 1 2 [[100; 300]], None).
Proof.
  cbv zeta.
  destruct (crop_roi_box ref_cv
              (mk_ndarray uint16 4 4
                 [[0; 0; 0; 0]; [0; 100; 300; 200]; [0; 120; 250; 90]; [0; 0; 0; 0]])
              (mk_ndarray uint8 4 4
                 [[0; 0; 0; 0]; [0; 1; 1; 1]; [0; 1; 1; 1]; [0; 0; 0; 0]])
              [(1, 1); (2, 1); (3, 1); (1, 2); (2, 2); (3, 2)])
    as (x1 & x2 & y1 & y2 & out & Hx1 & Hx2 & Hy1 & Hy2 & Hrun & _).
  - split; [reflexivity | repeat constructor].
  - vm_compute. reflexivity.
  - vm_compute. reflexivity.
  - discriminate.
  - repeat constructor; cbn; lia.
  - rewrite Hrun. vm_compute in Hx1, Hx2, Hy1, Hy2.
    injection Hx1 as <-. injection Hx2 as <-. injection Hy1 as <-. injection Hy2 as <-.
    revert Hrun. vm_compute. intros [= <-]. reflexivity.
Defined.

(** ** Binarisation: the threshold in integers *)

Lemma threshold_int (p m : Z) :
  Qgtb (inject_Z p) (inject_Z m * (5 # 100))%Q = (m <? 20 * p).
Proof.
  destruct (Z.ltb_spec m (20 * p)) as [H | H].
  - apply Qgtb_true. unfold Qlt, Qmult, inject_Z. cbn [Qnum Qden].
    change (Z.pos (1 * 100)) with 100. lia.
  - apply Qgtb_false. unfold Qle, Qmult, inject_Z. cbn [Qnum Qden].
    change (Z.pos (1 * 100)) with 100. lia.
Qed.

Lemma np_max_spec (a : ndarray) :
  wf a -> is_empty a = false ->
  exists m, np_max a = Ok m /\
    (exists i j, (i < nrows a)%nat /\ (j < ncols a)%nat /\ px a i j = m) /\
    (forall i j, (i < nrows a)%nat -> (j < ncols a)%nat -> px a i j <= m).
Proof.
  intros Hwf He. unfold is_empty in He. apply orb_false_iff in He as [Hr Hc].
  apply Nat.eqb_neq in Hr, Hc.
  assert (H0 : In (px a 0 0) (concat (data a))) by (apply px_in_concat; [assumption | lia | lia]).
  unfold np_max. destruct (list_max (concat (data a))) as [m|] eqn:E.
  - exists m. split; [reflexivity|].
    apply list_max_spec in E as [Hin Hall]. split.
    + apply in_concat_px; assumption.
    + intros i j Hi Hj. rewrite Forall_forall in Hall. apply Hall.
      apply px_in_concat; assumption.
  - destruct (concat (data a)); [contradiction | discriminate].
Qed.



(** ** Contour selection *)

Lemma py_max_key_fold_spec {A} (key : A -> Q) (t : list A) (x : A) :
  let r := fold_left (fun best c => if Qgtb (key c) (key best) then c else best) t x in
  exists pre post,
    x :: t = pre ++ r :: post /\
    Forall (fun c => (key c < key r)%Q) pre /\
    Forall (fun c => (key c <= key r)%Q) post.
Proof.
  induction t as [|a t IH] using rev_ind; cbv zeta.
  - exists [], []. cbn. split; [reflexivity|]. split; constructor.
  - rewrite fold_left_app. cbn [fold_left].
    cbv zeta in IH. destruct IH as (pre & post & Heq & Hpre & Hpost).
    set (r := fold_left _ t x) in *.
    destruct (Qgtb (key a) (key r)) eqn:E.
    + apply Qgtb_true in E.
      exists (x :: t), []. split; [reflexivity|]. split; [|constructor].
      rewrite Heq. apply Forall_app. split.
      * eapply Forall_impl; [|exact Hpre]. cbv beta. intros c Hc.
        eapply Qlt_trans; eassumption.
      * constructor; [exact E|].
        eapply Forall_impl; [|exact Hpost]. cbv beta. intros c Hc.
        eapply Qle_lt_trans; eassumption.
    + apply Qgtb_false in E.
      exists pre, (post ++ [a]). split.
      * change (x :: t ++ [a]) with ((x :: t) ++ [a]). rewrite Heq.
        rewrite <- app_assoc. reflexivity.
      * split; [exact Hpre|]. apply Forall_app. split; [exact Hpost|].
        constructor; [exact E | constructor].
Qed.

(** [_find_contours] returns, whenever OpenCV finds a contour at all in an
    8-bit image, one of the contours found, of the largest area, and among
    several of that area the first one in OpenCV's order. *)
Theorem find_contours_first_largest :
  forall (cv : OpenCV) (b : ndarray),
    dtype_of b = uint8 ->
    findContours b <> [] ->
    exists c pre post,
      _find_contours b = Ok c /\
      findContours b = pre ++ c :: post /\
      Forall (fun c' => (contourArea c' < contourArea c)%Q) pre /\
      Forall (fun c' => (contourArea c' <= contourArea c)%Q) post.
Proof.
  intros cv b Hd Hne. rewrite (find_contours_uint8 b Hd). unfold py_max_key.
  destruct (findContours b) as [|x t]; [contradiction|].
  destruct (py_max_key_fold_spec contourArea t x) as (pre & post & Heq & Hpre & Hpost).
  eexists. exists pre, post. split; [reflexivity|].
  split; [exact Heq|]. split; assumption.
Qed.

(** An image with three regions: a pixel, a 2x2 block and another pixel.
    The block is chosen; a smaller contour comes before it and one after
    it. *)
Lemma find_contours_first_largest_witness :
  let b := mk_ndarray uint8 5 5
             [[1; 0; 0; 0; 0]; [0; 0; 1; 1; 0]; [0; 0; 1; 1; 0];
              [0; 0; 0; 0; 0]; [1; 0; 0; 0; 0]] in
  let block := [(2, 1); (3, 1); (2, 2); (3, 2)] in
  findContours (OpenCV := ref_cv) b = [[(0, 0)]; block; [(0, 4)]] /\
  _find_contours (cv := ref_cv) b = Ok block.
Proof.
  cbv zeta. split; [vm_compute; reflexivity|].
  destruct (find_contours_first_largest ref_cv
              (mk_ndarray uint8 5 5
                 [[1; 0; 0; 0; 0]; [0; 0; 1; 1; 0]; [0; 0; 1; 1; 0];
                  [0; 0; 0; 0; 0]; [1; 0; 0; 0; 0]]))
    as (c & pre & post & Hrun & _).
  - reflexivity.
  - vm_compute. discriminate.
  - rewrite Hrun. revert Hrun. vm_compute. intros [= <-]. reflexivity.
Defined.

(** ** Photometric interpretation *)

Lemma in_range_map (f : Z -> Z) (a : ndarray) (d : dtype) :
  (forall p, In p (concat (data a)) -> 0 <= f p < 2 ^ bits d) ->
  in_range (mk_ndarray d (nrows a) (ncols a) (map (map f) (data a))).
Proof.
  intros H. unfold in_range. cbn [data dtype_of].
  apply Forall_forall. intros r Hr. apply in_map_iff in Hr as (r0 & <- & Hr0).
  apply Forall_forall. intros p Hp. apply in_map_iff in Hp as (p0 & <- & Hp0).
  apply H. apply in_concat. exists r0. split; assumption.
Qed.

Lemma in_range_concat (a : ndarray) (p : Z) :
  in_range a -> In p (concat (data a)) -> 0 <= p < 2 ^ bits (dtype_of a).
Proof.
  intros Hr Hp. apply in_concat in Hp as (r & Hin & Hp).
  unfold in_range in Hr. rewrite Forall_forall in Hr. specialize (Hr r Hin).
  rewrite Forall_forall in Hr. apply Hr. exact Hp.
Qed.

Lemma np_max_upper (a : ndarray) (m p : Z) :
  np_max a = Ok m -> In p (concat (data a)) -> p <= m /\ In m (concat (data a)).
Proof.
  unfold np_max. destruct (list_max (concat (data a))) as [m'|] eqn:E; [|discriminate].
  intros [= ->] Hp. apply list_max_spec in E as [Hin Hall].
  rewrite Forall_forall in Hall. split; [apply Hall; exact Hp | exact Hin].
Qed.

Lemma wrap_small (d : dtype) (z : Z) : 0 <= z < 2 ^ bits d -> wrap d z = z.
Proof. intros H. unfold wrap. apply Z.mod_small. exact H. Qed.

Lemma inverted_pixel (img : ndarray) (m p : Z) :
  in_range img -> np_max img = Ok m -> In p (concat (data img)) ->
  0 <= p <= m /\ m < 2 ^ bits (dtype_of img) /\
  wrap (dtype_of img) (m - p) = m - p.
Proof.
  intros Hr Hm Hp. destruct (np_max_upper _ _ _ Hm Hp) as [Hle Hin].
  pose proof (in_range_concat _ _ Hr Hp). pose proof (in_range_concat _ _ Hr Hin).
  split; [lia|]. split; [lia|]. apply wrap_small. lia.
Qed.

Lemma fix_photometric_inter_run (img : ndarray) (m : Z) :
  np_max img = Ok m ->
  _fix_photometric_inter "MONOCHROME1" img =
    Ok (mk_ndarray (dtype_of img) (nrows img) (ncols img)
          (map (map (fun p => wrap (dtype_of img) (m - p))) (data img))).
Proof.
  intros Hm. unfold _fix_photometric_inter. cbn [String.eqb Ascii.eqb Bool.eqb andb].
  rewrite Hm. reflexivity.
Qed.

Lemma inverted_px (img : ndarray) (m : Z) (i j : nat) :
  wf img -> in_range img -> np_max img = Ok m ->
  (i < nrows img)%nat -> (j < ncols img)%nat ->
  px (mk_ndarray (dtype_of img) (nrows img) (ncols img)
        (map (map (fun p => wrap (dtype_of img) (m - p))) (data img))) i j
  = m - px img i j /\ 0 <= px img i j <= m.
Proof.
  intros Hwf Hr Hm Hi Hj. rewrite px_map by assumption.
  destruct (inverted_pixel img m (px img i j) Hr Hm) as (Hb & _ & ->);
    [apply px_in_concat; assumption|].
  split; [reflexivity | exact Hb].
Qed.

Lemma inverted_in_range (img : ndarray) (m : Z) :
  in_range img -> np_max img = Ok m ->
  in_range (mk_ndarray (dtype_of img) (nrows img) (ncols img)
              (map (map (fun p => wrap (dtype_of img) (m - p))) (data img))).
Proof.
  intros Hr Hm. apply in_range_map. intros p Hp.
  destruct (inverted_pixel img m p Hr Hm Hp) as (Hb & Hlt & ->). lia.
Qed.

(** The inversion of a MONOCHROME1 image never wraps around: every pixel
    [p] becomes [max - p], the result is again an image of the same dtype
    and shape with values in range, and its brightest input pixel is now
    0. *)
Theorem fix_photometric_inter_inverts :
  forall img : ndarray,
    wf img -> in_range img -> is_empty img = false ->
    exists m out,
      np_max img = Ok m /\
      _fix_photometric_inter "MONOCHROME1" img = Ok out /\
      wf out /\ in_range out /\
      shape out = shape img /\ dtype_of out = dtype_of img /\
      (forall i j, (i < nrows img)%nat -> (j < ncols img)%nat ->
         px out i j = m - px img i j /\ 0 <= px out i j <= m) /\
      (exists i j, (i < nrows img)%nat /\ (j < ncols img)%nat /\ px out i j = 0).
Proof.
  intros img Hwf Hr He.
  destruct (np_max_spec img Hwf He) as (m & Hm & (i0 & j0 & Hi0 & Hj0 & Hp0) & _).
  exists m. eexists. split; [exact Hm|].
  split; [apply fix_photometric_inter_run; exact Hm|].
  split; [apply wf_map; exact Hwf|].
  split; [apply inverted_in_range; assumption|].
  split; [reflexivity|]. split; [reflexivity|]. split.
  - intros i j Hi Hj.
    destruct (inverted_px img m i j Hwf Hr Hm Hi Hj) as [-> Hb].
    split; [reflexivity | lia].
  - exists i0, j0. split; [exact Hi0|]. split; [exact Hj0|].
    destruct (inverted_px img m i0 j0 Hwf Hr Hm Hi0 Hj0) as [-> _]. lia.
Qed.

Lemma fix_photometric_inter_inverts_witness :
  _fix_photometric_inter "MONOCHROME1" (mk_ndarray uint16 2 2 [[7; 30]; [12; 4095]]) =
    Ok (mk_ndarray uint16 2 2 [[4088; 4065]; [4083; 0]]).
Proof.
  destruct (fix_photometric_inter_inverts (mk_ndarray uint16 2 2 [[7; 30]; [12; 4095]]))
    as (m & out & _ & Hrun & _).
  - split; [reflexivity | repeat constructor].
  - repeat constructor; cbn; lia.
  - reflexivity.
  - vm_compute. reflexivity.
Defined.

(** Inverting twice does not give the image back in general: every pixel
    comes back lowered by the darkest pixel of the image, so the round trip
    is exact only for an image that has a pixel of value 0. *)
Theorem fix_photometric_inter_twice :
  forall img : ndarray,
    wf img -> in_range img -> is_empty img = false ->
    exists lo out1 out2,
      _fix_photometric_inter "MONOCHROME1" img = Ok out1 /\
      _fix_photometric_inter "MONOCHROME1" out1 = Ok out2 /\
      shape out2 = shape img /\
      (exists i j, (i < nrows img)%nat /\ (j < ncols img)%nat /\ px img i j = lo) /\
      (forall i j, (i < nrows img)%nat -> (j < ncols img)%nat ->
         lo <= px img i j /\ px out2 i j = px img i j - lo).
Proof.
  intros img Hwf Hr He.
  destruct (np_max_spec img Hwf He) as (m & Hm & _).
  pose proof (fix_photometric_inter_run img m Hm) as Hrun1.
  set (out1 := mk_ndarray (dtype_of img) (nrows img) (ncols img)
                 (map (map (fun p => wrap (dtype_of img) (m - p))) (data img))) in *.
  assert (Hwf1 : wf out1) by (apply wf_map; exact Hwf).
  assert (Hr1 : in_range out1) by (apply inverted_in_range; assumption).
  assert (He1 : is_empty out1 = false) by exact He.
  destruct (np_max_spec out1 Hwf1 He1)
    as (m1 & Hm1 & (i0 & j0 & Hi0 & Hj0 & Hp0) & Hmax1).
  pose proof (fix_photometric_inter_run out1 m1 Hm1) as Hrun2.
  change (nrows out1) with (nrows img) in *. change (ncols out1) with (ncols img) in *.
  destruct (inverted_px img m i0 j0 Hwf Hr Hm Hi0 Hj0) as [E0 _]. fold out1 in E0.
  exists (px img i0 j0), out1. eexists.
  split; [exact Hrun1|]. split; [exact Hrun2|]. split; [reflexivity|].
  split; [exists i0, j0; auto|].
  intros i j Hi Hj.
  destruct (inverted_px img m i j Hwf Hr Hm Hi Hj) as [E _]. fold out1 in E.
  destruct (inverted_px out1 m1 i j Hwf1 Hr1 Hm1 Hi Hj) as [E2 _].
  change (dtype_of out1) with (dtype_of img) in *.
  change (nrows out1) with (nrows img) in *. change (ncols out1) with (ncols img) in *.
  pose proof (Hmax1 i j Hi Hj). rewrite E2. lia.
Qed.

Lemma fix_photometric_inter_twice_witness :
  exists out1,
    _fix_photometric_inter "MONOCHROME1" (mk_ndarray uint16 1 3 [[7; 30; 12]]) = Ok out1 /\
    _fix_photometric_inter "MONOCHROME1" out1 = Ok (mk_ndarray uint16 1 3 [[0; 23; 5]]).
Proof.
  destruct (fix_photometric_inter_twice (mk_ndarray uint16 1 3 [[7; 30; 12]]))
    as (lo & out1 & out2 & H1 & H2 & _).
  - split; [reflexivity | repeat constructor].
  - repeat constructor; cbn; lia.
  - reflexivity.
  - exists out1. split; [exact H1|]. rewrite H2.
    revert H1 H2. vm_compute. intros [= <-]. vm_compute. intros [= <-]. reflexivity.
Defined.

(** ** Background removal with the white-line fix *)

Lemma last_nth {A} (l : list A) (d : A) : last l d = nth (length l - 1) l d.
Proof.
  induction l as [|a [|b l] IH]; [reflexivity | reflexivity |].
  change (last (a :: b :: l) d) with (last (b :: l) d). rewrite IH.
  cbn [length nth Nat.sub]. rewrite Nat.sub_0_r. reflexivity.
Qed.

Lemma binarize_shape (img b : ndarray) :
  _binarize img = Ok b -> nrows b = nrows img /\ ncols b = ncols img.
Proof.
  unfold _binarize. destruct (np_max img); [|discriminate].
  cbn [Py.bind]. intros [= <-]. split; reflexivity.
Qed.

Lemma np_max_drawContours {cv : OpenCV} (h w : nat) (c : contour) (y x : nat) :
  (y < h)%nat -> (x < w)%nat -> filled c y x = true ->
  np_max (cv2_drawContours_filled h w c) = Ok 255.
Proof.
  intros Hy Hx Hf.
  destruct (np_max_spec (cv2_drawContours_filled h w c)) as (m & Hm & (i & j & Hi & Hj & Hp) & Hmax).
  - apply wf_drawContours.
  - unfold is_empty. cbn [nrows ncols cv2_drawContours_filled].
    destruct h, w; try lia. reflexivity.
  - cbn [nrows ncols cv2_drawContours_filled] in *.
    specialize (Hmax y x Hy Hx).
    rewrite px_drawContours in Hp, Hmax by assumption. rewrite Hf in Hmax.
    rewrite Hm. f_equal. destruct (filled c i j); lia.
Qed.

(** With [remove_wlines] the contour mask is divided by its maximum before
    the product, so the result is a float image in which the pixels of the
    filled region keep their value (they are not multiplied by 255), the
    pixels outside of it are 0, and every row whose last pixel lies in the
    region is 0 throughout. *)
Theorem remove_background_wlines :
  forall (cv : OpenCV) (img b : ndarray) (c : contour),
    wf img ->
    _binarize img = Ok b -> _find_contours b = Ok c ->
    (exists y x, (y < nrows img)%nat /\ (x < ncols img)%nat /\ filled c y x = true) ->
    exists out,
      _remove_background img true = Ok out /\
      fnrows out = nrows img /\ fncols out = ncols img /\
      forall y x, (y < nrows img)%nat -> (x < ncols img)%nat ->
        (fpx out y x ==
         if filled c y x && negb (filled c y (ncols img - 1))
         then inject_Z (px img y x) else 0)%Q.
Proof.
  intros cv img b c Hwf Hb Hc (y0 & x0 & Hy0 & Hx0 & Hf0).
  destruct (binarize_shape _ _ Hb) as [Hr Hcn].
  unfold _remove_background. rewrite Hb. cbn [Py.bind]. rewrite Hc. cbn [Py.bind].
  cbv zeta. rewrite Hr, Hcn.
  cbn [ncols cv2_drawContours_filled].
  destruct (Nat.eqb_spec (ncols img) 0) as [E | _]; [lia|].
  rewrite (np_max_drawContours _ _ c y0 x0) by assumption. cbn [Py.bind].
  eexists. split; [reflexivity|]. split; [reflexivity|]. split; [reflexivity|].
  intros y x Hy Hx. unfold fpx. cbn [fdata data].
  pose proof Hwf as [Hlen Hrows].
  cbn [data cv2_drawContours_filled].
  set (F := fun y x : nat => if filled c y x then 255 else 0).
  set (g := fun r : list Z =>
              map (fun m : Z =>
                     (inject_Z (wrap uint8 (m * (if last r 0 =? 255 then 0 else 1))%Z) /
                      inject_Z 255)%Q) r).
  assert (Hlt : forall n f, length (@tabulate (list Z) n f) = n)
    by (intros; unfold tabulate; rewrite length_map, length_seq; reflexivity).
  assert (Hlz : forall n f, length (@tabulate Z n f) = n)
    by (intros; unfold tabulate; rewrite length_map, length_seq; reflexivity).
  rewrite (nth_map2 _ _ _ _ [] [] []) by (rewrite ?length_map, ?Hlt; lia).
  rewrite (nth_indep _ [] (g [])) by (rewrite length_map, Hlt; exact Hy).
  rewrite map_nth, nth_tabulate by exact Hy.
  unfold g. rewrite last_nth, Hlz, nth_tabulate by lia.
  rewrite (nth_map2 _ _ _ _ 0 0%Q 0%Q)
    by (rewrite ?length_map, ?Hlz, ?wf_row; assumption).
  set (h := fun m : Z => _).
  rewrite (nth_indep _ 0%Q (h 0)) by (rewrite length_map, Hlz; exact Hx).
  rewrite map_nth, nth_tabulate by exact Hx.
  unfold h, F. fold (px img y x).
  generalize (px img y x). intros p.
  destruct (filled c y x), (filled c y (ncols img - 1)); cbn [andb negb];
    match goal with
    | |- (_ * (inject_Z ?z / _) == _)%Q =>
        let v := eval vm_compute in z in change z with v
    end;
    unfold Qeq, Qdiv, Qmult, Qinv, inject_Z; cbn [Qnum Qden]; lia.
Qed.

Lemma remove_background_wlines_witness :
  exists out,
    _remove_background (cv := ref_cv)
      (mk_ndarray uint16 2 3 [[0; 300; 0]; [0; 200; 100]]) true = Ok out /\
    (fpx out 0 1 == 300)%Q /\ (fpx out 1 1 == 0)%Q.
Proof.
  destruct (remove_background_wlines ref_cv
              (mk_ndarray uint16 2 3 [[0; 300; 0]; [0; 200; 100]])
              (mk_ndarray uint8 2 3 [[0; 1; 0]; [0; 1; 1]])
              [(1, 0); (1, 1); (2, 1)])
    as (out & Hrun & _ & _ & Hpx).
  - split; [reflexivity | repeat constructor].
  - vm_compute. reflexivity.
  - vm_compute. reflexivity.
  - exists 0%nat, 1%nat. split; [cbn; lia|]. split; [cbn; lia|]. vm_compute. reflexivity.
  - exists out. split; [exact Hrun|]. split.
    + apply (Hpx 0%nat 1%nat); cbn; lia.
    + apply (Hpx 1%nat 1%nat); cbn; lia.
Defined.

(** ** The 8-bit conversion applied twice *)

Lemma map_map_id {A} (f : A -> A) (l : list (list A)) :
  (forall p, In p (concat l) -> f p = p) -> map (map f) l = l.
Proof.
  intros H. induction l as [|r l IH]; [reflexivity|]. cbn [map]. f_equal.
  - rewrite <- (map_id r) at 2. apply map_ext_in. intros p Hp.
    apply H. cbn [concat]. apply in_or_app. left. exact Hp.
  - apply IH. intros p Hp. apply H. cbn [concat]. apply in_or_app. right. exact Hp.
Qed.

Lemma np_max_nonempty (a : ndarray) (m : Z) :
  wf a -> np_max a = Ok m ->
  is_empty a = false /\
  exists i j, (i < nrows a)%nat /\ (j < ncols a)%nat /\ px a i j = m.
Proof.
  intros Hwf Hm.
  assert (Hin : In m (concat (data a))).
  { unfold np_max in Hm. destruct (list_max _) eqn:E; [|discriminate].
    injection Hm as ->. apply list_max_spec in E. apply E. }
  destruct (in_concat_px a m Hwf Hin) as (i & j & Hi & Hj & Hp).
  split; [|exists i, j; auto].
  unfold is_empty. destruct (nrows a), (ncols a); try lia. reflexivity.
Qed.

(** The 8-bit conversion is idempotent and keeps the order of the pixels:
    its result has the maximum 255, so converting the result again returns
    it unchanged, and a pixel that was not brighter than another one is not
    brighter afterwards. *)
Theorem convert_to_8bit_idempotent :
  forall (img out : ndarray) (m : Z),
    wf img -> in_range img -> np_max img = Ok m -> 0 < m ->
    _convert_to_8bit img = Ok out ->
    np_max out = Ok 255 /\
    _convert_to_8bit out = Ok out /\
    (forall y x y' x',
       (y < nrows img)%nat -> (x < ncols img)%nat ->
       (y' < nrows img)%nat -> (x' < ncols img)%nat ->
       px img y x <= px img y' x' -> px out y x <= px out y' x').
Proof.
  intros img out m Hwf Hr Hmax Hm Hrun.
  destruct (np_max_nonempty img m Hwf Hmax) as (He & i0 & j0 & Hi0 & Hj0 & Hp0).
  unfold _convert_to_8bit in Hrun. rewrite Hmax in Hrun. cbn [Py.bind] in Hrun.
  injection Hrun as <-.
  set (f := fun p : Z => cast uint8 (inject_Z p / inject_Z m * 255)%Q).
  set (out := mk_ndarray uint8 (nrows img) (ncols img) (map (map f) (data img))).
  assert (Hwfo : wf out) by (apply wf_map; exact Hwf).
  assert (Hpx : forall y x, (y < nrows img)%nat -> (x < ncols img)%nat ->
            px out y x = px img y x * 255 / m /\ 0 <= px out y x <= 255).
  { intros y x Hy Hx. unfold out. rewrite px_map by assumption.
    assert (Hb : 0 <= px img y x <= m).
    { split; [apply (px_in_range img y x); assumption|].
      apply (np_max_upper img m); [exact Hmax | apply px_in_concat; assumption]. }
    unfold f. destruct (convert_px _ m Hb Hm) as [-> Hc]. split; [reflexivity | exact Hc]. }
  assert (Hmax' : np_max out = Ok 255).
  { destruct (np_max_spec out Hwfo He) as (m' & Hm' & (i & j & Hi & Hj & Hp) & Hub).
    rewrite Hm'. f_equal.
    destruct (Hpx i j Hi Hj) as [_ Hb]. specialize (Hub i0 j0 Hi0 Hj0).
    destruct (Hpx i0 j0 Hi0 Hj0) as [E _]. rewrite Hp0 in E.
    rewrite Z.mul_comm, Z.div_mul in E by lia. lia. }
  split; [exact Hmax'|]. split.
  - unfold _convert_to_8bit. rewrite Hmax'. cbn [Py.bind].
    unfold out at 4. cbn [nrows ncols]. do 2 f_equal.
    apply map_map_id. intros p Hp.
    destruct (in_concat_px out p Hwfo Hp) as (y & x & Hy & Hx & <-).
    destruct (Hpx y x Hy Hx) as [_ Hb].
    assert (Hb' : 0 <= px out y x <= 255) by exact Hb.
    destruct (convert_px _ 255 Hb' eq_refl) as [-> _].
    apply Z.div_mul. lia.
  - intros y x y' x' Hy Hx Hy' Hx' Hle.
    destruct (Hpx y x Hy Hx) as [-> _]. destruct (Hpx y' x' Hy' Hx') as [-> _].
    apply Z.div_le_mono; lia.
Qed.

Lemma convert_to_8bit_idempotent_witness :
  _convert_to_8bit (mk_ndarray uint8 1 3 [[0; 127; 255]]) =
    Ok (mk_ndarray uint8 1 3 [[0; 127; 255]]).
Proof.
  refine (proj1 (proj2 (convert_to_8bit_idempotent
            (mk_ndarray uint16 1 3 [[0; 1; 2]])
            (mk_ndarray uint8 1 3 [[0; 127; 255]]) 2 _ _ _ _ _))).
  - split; [reflexivity | repeat constructor].
  - repeat constructor; cbn; lia.
  - reflexivity.
  - lia.
  - vm_compute. reflexivity.
Defined.

(** ** The size of the pipeline output *)

Section PipelineShape.
Context {cv : OpenCV}.

Lemma resize_to_height_image (img img' : ndarray) (size : Z * Z)
    (mask l' : option labels) :
  _resize_to_height img size mask = Ok (img', l') ->
  0 < fst size /\ is_empty img' = false /\ nrows img' = Z.to_nat (fst size).
Proof.
  unfold _resize_to_height.
  destruct (new_size _ _ size) as [[nw nh]|] eqn:Hns; [|discriminate].
  pose proof (new_size_snd _ _ _ _ Hns) as Hsnd. cbn [snd] in Hsnd. subst nh.
  cbn [Py.bind].
  destruct (cv2_resize img (nw, fst size) INTER_LINEAR) as [a|] eqn:Ha; [|discriminate].
  cbn [Py.bind].
  apply cv2_resize_inv in Ha as (_ & Hw & Hh & Hs).
  assert (Hres : 0 < fst size /\ is_empty a = false /\ nrows a = Z.to_nat (fst size)).
  { pose proof (f_equal fst Hs) as Hr. pose proof (f_equal snd Hs) as Hc.
    cbn [shape fst snd] in Hr, Hc.
    split; [exact Hh|]. split; [|exact Hr].
    unfold is_empty. rewrite Hr, Hc.
    destruct (Nat.eqb_spec (Z.to_nat (fst size)) 0); [lia|].
    destruct (Nat.eqb_spec (Z.to_nat nw) 0); [lia | reflexivity]. }
  destruct mask as [m|].
  - destruct (resize_labels m (nw, fst size) INTER_NEAREST); [|discriminate].
    cbn [Py.bind]. intros [= <- _]. exact Hres.
  - intros [= <- _]. exact Hres.
Qed.

Lemma padresize_to_width_image (img img' : ndarray) (size : Z * Z)
    (mask l' : option labels) :
  is_empty img = false -> nrows img = Z.to_nat (fst size) ->
  _padresize_to_width img size mask = Ok (img', l') ->
  0 < snd size /\
  shape img' = (Z.to_nat (fst size), Z.to_nat (snd size)) /\
  dtype_of img' = dtype_of img.
Proof.
  intros He Hr. unfold is_empty in He. apply orb_false_iff in He as [_ Hc].
  apply Nat.eqb_neq in Hc.
  unfold _padresize_to_width.
  destruct (Z.ltb_spec (Z.of_nat (ncols img)) (snd size)) as [Hlt | Hge].
  - destruct (Z.gtb_spec (Z.of_nat (ncols img)) (snd size)) as [?|_]; [lia|].
    unfold cv2_copyMakeBorder_right.
    destruct (Z.ltb_spec (snd size - Z.of_nat (ncols img)) 0); [lia|].
    cbn [Py.bind].
    assert (Hres : forall a,
              a = mk_ndarray (dtype_of img) (nrows img)
                    (ncols img + Z.to_nat (snd size - Z.of_nat (ncols img)))
                    (map (fun r => r ++ repeat 0 (Z.to_nat (snd size - Z.of_nat (ncols img))))
                         (data img)) ->
              0 < snd size /\
              shape a = (Z.to_nat (fst size), Z.to_nat (snd size)) /\
              dtype_of a = dtype_of img).
    { intros a ->. split; [lia|]. split; [|reflexivity].
      unfold shape. cbn [nrows ncols]. f_equal; lia. }
    destruct mask as [m|].
    + destruct (copyMakeBorder_right_labels m _); [|discriminate].
      cbn [Py.bind]. intros [= <- _]. apply Hres. reflexivity.
    + cbn [Py.bind]. intros [= <- _]. apply Hres. reflexivity.
  - cbn [Py.bind].
    destruct (Z.gtb_spec (Z.of_nat (ncols img)) (snd size)) as [Hgt | Hle].
    + destruct (cv2_resize img (snd size, fst size) INTER_LINEAR) as [a|] eqn:Ha;
        [|discriminate].
      cbn [Py.bind].
      assert (Hd : dtype_of a = dtype_of img).
      { unfold cv2_resize in Ha.
        destruct (is_empty img || (snd size <=? 0) || (fst size <=? 0)); [discriminate|].
        injection Ha as <-. reflexivity. }
      apply cv2_resize_inv in Ha as (_ & Hw & Hh & Hs).
      destruct mask as [m|].
      * destruct (resize_labels m _ INTER_NEAREST); [|discriminate].
        cbn [Py.bind]. intros [= <- _]. auto.
      * intros [= <- _]. auto.
    + intros [= <- _]. split; [lia|]. split; [|reflexivity].
      unfold shape. f_equal; lia.
Qed.

Lemma convert_to_8bit_shape (img out : ndarray) :
  _convert_to_8bit img = Ok out -> dtype_of out = uint8 /\ shape out = shape img.
Proof.
  unfold _convert_to_8bit. destruct (np_max img); [|discriminate].
  cbn [Py.bind]. intros [= <-]. split; reflexivity.
Qed.

End PipelineShape.

(** Whenever the CBIS-DDSM pipeline returns (without histogram equalisation
    and without saving), it returns an image, of dtype [uint8] and of
    exactly the configured size: both target dimensions are positive, the
    height comes from [_resize_to_height] and the width from
    [_padresize_to_width]. *)
Theorem preprocess_image_output_size :
  forall (cv : OpenCV) (fs : Files) (self : MammoPreprocessorCBISDDSM)
         (path fformat : string) (r : option ndarray),
    preprocess_image self path fformat false false = Ok r ->
    0 < fst (image_size self) /\ 0 < snd (image_size self) /\
    exists out,
      r = Some out /\ dtype_of out = uint8 /\
      shape out = (Z.to_nat (fst (image_size self)), Z.to_nat (snd (image_size self))).
Proof.
  intros cv fs self path fformat r. unfold preprocess_image.
  destruct (pixelData path) as [img0|]; [|discriminate]. cbn [Py.bind].
  destruct (_combine_masks self path) as [l0|]; [|discriminate]. cbn [Py.bind].
  destruct (_correct_side img0 (Some l0)) as [[img1 l1]|]; [|discriminate].
  cbn [Py.bind].
  destruct (_remove_background img1 false) as [img2|]; [|discriminate].
  cbn [Py.bind].
  destruct (_crop_roi img2 l1) as [[img3 l3]|]; [|discriminate]. cbn [Py.bind].
  destruct (_resize_to_height img3 (image_size self) l3) as [[img4 l4]|] eqn:H4;
    [|discriminate].
  cbn [Py.bind].
  destruct (_padresize_to_width img4 (image_size self) l4) as [[img5 l5]|] eqn:H5;
    [|discriminate].
  cbn [Py.bind].
  destruct (_convert_to_8bit img5) as [img6|] eqn:H6; [|discriminate].
  cbn [Py.bind]. intros [= <-].
  apply resize_to_height_image in H4 as (Hh & He4 & Hr4).
  apply (padresize_to_width_image _ _ _ _ _ He4 Hr4) in H5 as (Hw & Hs5 & _).
  apply convert_to_8bit_shape in H6 as [Hd Hs6].
  split; [exact Hh|]. split; [exact Hw|].
  exists img6. split; [reflexivity|]. split; [exact Hd|].
  rewrite Hs6. exact Hs5.
Qed.

Lemma preprocess_image_output_size_witness :
  let img := mk_ndarray uint16 3 3 [[0; 0; 0]; [300; 200; 0]; [100; 0; 0]] in
  let msk := mk_ndarray uint8 3 3 [[0; 0; 0]; [255; 255; 0]; [0; 0; 0]] in
  let fs := files_of [("a.dcm"%string, img); ("m.dcm"%string, msk)] in
  let self := mk_cbis (4, 2) [mk_row "a.dcm" "m.dcm" 2] in
  exists out,
    preprocess_image (cv := ref_cv) (fs := fs) self "a.dcm" "png" false false =
      Ok (Some out) /\
    dtype_of out = uint8 /\ shape out = (4%nat, 2%nat).
Proof.
  cbv zeta.
  assert (Hrun : { out | preprocess_image (cv := ref_cv)
              (fs := files_of
                 [("a.dcm"%string,
                   mk_ndarray uint16 3 3 [[0; 0; 0]; [300; 200; 0]; [100; 0; 0]]);
                  ("m.dcm"%string,
                   mk_ndarray uint8 3 3 [[0; 0; 0]; [255; 255; 0]; [0; 0; 0]])])
              (mk_cbis (4, 2) [mk_row "a.dcm" "m.dcm" 2]) "a.dcm" "png" false false =
              Ok (Some out) }).
  { eexists. vm_compute. reflexivity. }
  destruct Hrun as [out Hrun]. exists out. split; [exact Hrun|].
  destruct (preprocess_image_output_size ref_cv _ _ _ _ _ Hrun)
    as (_ & _ & out' & [= <-] & Hd & Hs).
  split; [exact Hd | exact Hs].
Defined.

(** ** Masks of different shapes *)

Lemma combine_loop_app {fs : Files} (pre rest : list row) (l : labels) :
  combine_loop (pre ++ rest) l =
  match combine_loop pre l with
  | Ok l' => combine_loop rest l'
  | Raise e => Raise e
  end.
Proof.
  revert l. induction pre as [|r pre IH]; intros l; [reflexivity|].
  cbn [app combine_loop].
  destruct (pixelData (mask_fname r)) as [m|]; [|reflexivity]. cbn [Py.bind].
  destruct (iadd_labels l _) as [l'|]; [|reflexivity]. cbn [Py.bind].
  apply IH.
Qed.

Lemma broadcast_mismatch (x : ndarray) (h w : nat) :
  (nrows x <> h /\ nrows x <> 1%nat) \/ (ncols x <> w /\ ncols x <> 1%nat) ->
  np_broadcast_to x (h, w) = Raise ValueError.
Proof.
  intros H. unfold np_broadcast_to.
  destruct (Nat.eqb_spec (nrows x) h), (Nat.eqb_spec (nrows x) 1),
           (Nat.eqb_spec (ncols x) w), (Nat.eqb_spec (ncols x) 1);
    cbn [orb andb]; try reflexivity; lia.
Qed.

(** The first mask of an image fixes the shape of the label array: when a
    later mask file of the same image decodes to an array that cannot be
    broadcast to that shape (a dimension that differs and is not 1), the
    in-place addition fails and [_combine_masks] raises [ValueError],
    whatever follows. *)
Theorem combine_masks_shape_mismatch :
  forall (fs : Files) (self : MammoPreprocessorCBISDDSM) (path : string)
         (pre post : list row) (r : row) (ms : list ndarray) (m : ndarray)
         (h w : nat),
    filter (fun r => String.eqb (full_img_fname r) path) (df self) =
      pre ++ r :: post ->
    pre <> [] ->
    Forall2 (fun r m => pixelData (mask_fname r) = Ok m) pre ms ->
    Forall (fun m => wf m /\ shape m = (h, w)) ms ->
    pixelData (mask_fname r) = Ok m ->
    (nrows m <> h /\ nrows m <> 1%nat) \/ (ncols m <> w /\ ncols m <> 1%nat) ->
    _combine_masks self path = Raise ValueError.
Proof.
  intros fs self path pre post r ms m h w Hrows Hne Hdec Hms Hm Hbad.
  unfold _combine_masks. rewrite Hrows.
  destruct pre as [|r1 pre]; [contradiction|].
  inversion Hdec as [|? m1 ? ms' Hm1 Hdec']; subst.
  inversion Hms as [|? ? [Hwm Hsm] Hms']; subst.
  cbn [app combine_loop]. rewrite Hm1. cbn [Py.bind iadd_labels].
  destruct (scaled_mask_spec r1 m1 Hwm) as (Hws & Hds & Hss & Hpxs).
  set (sm := np_mul_scalar (mask_px m1) (pathology r1)) in *.
  destruct (shape_inv _ _ _ Hsm) as [Hrm Hcm].
  destruct (shape_inv _ _ _ Hss) as [Hrs Hcs].
  rewrite combine_loop_app.
  destruct (combine_loop_array h w pre ms'
              (mk_ndarray (dtype_of sm) (nrows sm) (ncols sm)
                 (map (map (fun p => wrap (dtype_of sm) (0 + p))) (data sm)))
              (fun y x => mask_term r1 m1 y x) Hdec' Hms')
    as (lab & Hl & Hwl & Hsl & Hdl & Hpl).
  - apply wf_map. exact Hws.
  - unfold shape. cbn. congruence.
  - exact Hds.
  - intros y x Hy Hx. rewrite px_map by (assumption || lia).
    rewrite Hpxs, Hds by lia. cbn [Z.add].
    unfold wrap. apply Z.mod_mod. cbn. lia.
  - rewrite Hl. cbn [combine_loop]. rewrite Hm. cbn [Py.bind iadd_labels].
    rewrite Hsl. rewrite broadcast_mismatch; [reflexivity|]. exact Hbad.
Qed.

Lemma combine_masks_shape_mismatch_witness :
  let m1 := mk_ndarray uint8 2 2 [[255; 0]; [255; 0]] in
  let m2 := mk_ndarray uint8 2 3 [[255; 255; 0]; [0; 0; 0]] in
  let fs := files_of [("m1.dcm"%string, m1); ("m2.dcm"%string, m2)] in
  let self := mk_cbis (4096, 2048)
                [mk_row "a.dcm" "m1.dcm" 1; mk_row "a.dcm" "m2.dcm" 2] in
  _combine_masks (fs := fs) self "a.dcm" = Raise ValueError.
Proof.
  cbv zeta.
  apply (combine_masks_shape_mismatch _ _ _
           [mk_row "a.dcm" "m1.dcm" 1] [] (mk_row "a.dcm" "m2.dcm" 2)
           [mk_ndarray uint8 2 2 [[255; 0]; [255; 0]]]
           (mk_ndarray uint8 2 3 [[255; 255; 0]; [0; 0; 0]]) 2 2).
  - reflexivity.
  - discriminate.
  - repeat constructor.
  - repeat constructor.
  - reflexivity.
  - right. cbn. split; lia.
Defined.

(** ** Width normalisation applied twice *)

Lemma padresize_to_width_ncols {cv : OpenCV} (img img' : ndarray) (size : Z * Z)
    (mask l' : option labels) :
  is_empty img = false ->
  _padresize_to_width img size mask = Ok (img', l') ->
  Z.of_nat (ncols img') = snd size.
Proof.
  intros He. unfold is_empty in He. apply orb_false_iff in He as [_ Hc].
  apply Nat.eqb_neq in Hc.
  unfold _padresize_to_width.
  destruct (Z.ltb_spec (Z.of_nat (ncols img)) (snd size)) as [Hlt | Hge].
  - destruct (Z.gtb_spec (Z.of_nat (ncols img)) (snd size)) as [?|_]; [lia|].
    unfold cv2_copyMakeBorder_right.
    destruct (Z.ltb_spec (snd size - Z.of_nat (ncols img)) 0); [lia|].
    cbn [Py.bind].
    destruct mask as [m|].
    + destruct (copyMakeBorder_right_labels m _); [|discriminate].
      cbn [Py.bind]. intros [= <- _]. cbn [ncols]. lia.
    + cbn [Py.bind]. intros [= <- _]. cbn [ncols]. lia.
  - cbn [Py.bind].
    destruct (Z.gtb_spec (Z.of_nat (ncols img)) (snd size)) as [Hgt | Hle].
    + destruct (cv2_resize img (snd size, fst size) INTER_LINEAR) as [a|] eqn:Ha;
        [|discriminate].
      cbn [Py.bind].
      apply cv2_resize_inv in Ha as (_ & Hw & Hh & Hs).
      pose proof (f_equal snd Hs) as Hcs. cbn [shape snd] in Hcs.
      destruct mask as [m|].
      * destruct (resize_labels m _ INTER_NEAREST); [|discriminate].
        cbn [Py.bind]. intros [= <- _]. lia.
      * intros [= <- _]. lia.
    + intros [= <- _]. lia.
Qed.

(** [_padresize_to_width] is idempotent: its result has the target width,
    so a second call with the same size takes neither branch and returns
    image and mask as they are. *)
Theorem padresize_to_width_idempotent :
  forall (cv : OpenCV) (img img' : ndarray) (size : Z * Z) (mask l' : option labels),
    is_empty img = false ->
    _padresize_to_width img size mask = Ok (img', l') ->
    _padresize_to_width img' size l' = Ok (img', l').
Proof.
  intros cv img img' size mask l' He Hrun.
  pose proof (padresize_to_width_ncols _ _ _ _ _ He Hrun) as Hw.
  unfold _padresize_to_width. rewrite Hw.
  rewrite Z.ltb_irrefl. cbn [Py.bind].
  destruct (Z.gtb_spec (snd size) (snd size)) as [?|_]; [lia | reflexivity].
Qed.

Lemma padresize_to_width_idempotent_witness :
  let out := mk_ndarray uint16 2 3 [[1; 2; 0]; [3; 4; 0]] in
  _padresize_to_width (cv := ref_cv) out (2, 3) None = Ok (out, None).
Proof.
  cbv zeta.
  apply (padresize_to_width_idempotent ref_cv
           (mk_ndarray uint16 2 2 [[1; 2]; [3; 4]]) _ (2, 3) None None).
  - reflexivity.
  - vm_compute. reflexivity.
Defined.
